(** * Vibeants: the simulation engine of src/main.js, embedded and verified

    The engine of [src/main.js] (classes [World] and [Ant], the utilities
    above them and the tick loop of [main]) is translated definition by
    definition, together with what the page does around it: the colour of a
    cell in [drawWorld], the pointer handling of [Interaction] and the frame
    of the main loop.  Conventions of the embedding:

    - JavaScript numbers are modelled by exact rationals [Q]: every
      arithmetic operation is the mathematical one, without IEEE rounding.
      Grid cells, pile amounts, the score and the tick counter are integers
      in the source and are modelled by [Z].
    - Where rounding decides the outcome the code is evaluated in IEEE
      arithmetic as well, with [SpecFloat]: the value an advance stores in a
      cell of the [Float32Array] (binary32, module [IEEE]) and the frame
      clock of the main loop (binary64).
    - [Math.cos], [Math.sin] and [Math.atan2] are engine-provided functions
      on numbers; they are the fields of the record [MathLib], taken as a
      parameter.
    - [Math.random] is an ambient generator; it is modelled by an explicit
      stream of draws threaded through every function that calls it.
    - Typed arrays ([Float32Array], [Uint8Array]) are lists read and written
      by index; a write outside the array is ignored, as in JavaScript.
    - [Math.hypot(dx, dy) <= r] on integer arguments is decided exactly by
      comparing squares. *)

From Stdlib Require Import ZArith QArith Qabs Qround Qminmax Qpower Lia Lqa List Bool.
From Stdlib Require Import SpecFloat.
From stdpp Require Import base list.
Import ListNotations.

Local Open Scope Z_scope.

(** ** Constants & types (main.js, lines 8-39) *)

Definition CELL_SIZE : Z := 6.

(** The two facts [computeCanvasSize] reads from the browser window. *)
Record Viewport := { isMobileQuery : bool; innerWidth : Z }.

Record CanvasSize := { width : Z; height : Z; isMobile : bool }.

Definition computeCanvasSize (vp : Viewport) : CanvasSize :=
  if isMobileQuery vp then
    let available := Z.max 240 (Z.min 700 (innerWidth vp - 32)) in
    let cells := Z.max 40 (available / CELL_SIZE) in
    let side := cells * CELL_SIZE in
    {| width := side; height := side; isMobile := true |}
  else {| width := 1400; height := 560; isMobile := false |}.

Definition GRID_WIDTH (vp : Viewport) : Z := width (computeCanvasSize vp) / CELL_SIZE.
Definition GRID_HEIGHT (vp : Viewport) : Z := height (computeCanvasSize vp) / CELL_SIZE.

Definition INITIAL_ANT_COUNT : Z := 200.
Definition MAX_ANTS : Z := 1000.

Local Open Scope Q_scope.

(** [Math.PI] is the double nearest to pi, a rational number. *)
Definition Math_PI : Q := 884279719003555 # 281474976710656.

Definition ANT_STEP_SPEED : Q := 1 # 10.
Definition ANT_TURN_ANGLE : Q := (Math_PI / 180) * 18.
Definition SENSOR_ANGLE : Q := (Math_PI / 180) * 28.
Definition SENSOR_OFFSET : Z := 2.
Definition SENSOR_SPREAD : Z := 1.

Definition EVAPORATION : Q := 6 # 1000.
Definition DIFFUSION_WEIGHT : Q := 0.
Definition PHEROMONE_DEPOSIT_FOOD : Q := 45 # 100.
Definition PHEROMONE_DEPOSIT_HOME : Q := 0.
Definition PHEROMONE_MAX : Q := 5.
Definition SCENT_THRESHOLD : Q := 5 # 100.

Definition FOOD_RADIUS_CELLS : Z := 2.
Definition NEST_RADIUS_CELLS : Z := 3.

(** ** Utilities (main.js, lines 48-70) *)

Definition clamp (value min max : Q) : Q := Qmax min (Qmin max value).

(** [clamp] on integer arguments. *)
Definition clampZ (value min max : Z) : Z := Z.max min (Z.min max value).

Definition Qltb (a b : Q) : bool := negb (Qle_bool b a).

(** One loop of [wrapAngle]: [while (angle < -PI) angle += 2*PI]. *)
Fixpoint wrapUp (fuel : nat) (angle : Q) : Q :=
  match fuel with
  | O => angle
  | S k => if Qltb angle (- Math_PI) then wrapUp k (angle + Math_PI * 2) else angle
  end.

(** The other loop: [while (angle > PI) angle -= 2*PI]. *)
Fixpoint wrapDown (fuel : nat) (angle : Q) : Q :=
  match fuel with
  | O => angle
  | S k => if Qltb Math_PI angle then wrapDown k (angle - Math_PI * 2) else angle
  end.

(** A number of iterations that is enough for either loop on [angle]. *)
Definition wrapFuel (angle : Q) : nat := Z.to_nat (Qceiling (Qabs angle / (Math_PI * 2))).

Definition wrapAngle (angle : Q) : Q :=
  let a1 := wrapUp (wrapFuel angle) angle in
  wrapDown (wrapFuel a1) a1.

(** The ambient generator behind [Math.random]: the draws still to come. *)
Definition Rng : Type := nat -> Q.

Definition Math_random (g : Rng) : Q * Rng := (g O, fun n => g (S n)).

Definition randomBetween (min max : Q) (g : Rng) : Q * Rng :=
  let '(r, g) := Math_random g in (min + r * (max - min), g).

(** [distanceCells(ax, ay, bx, by) <= r] for integer cells and an integer
    radius: [Math.hypot(dx, dy) <= r]. *)
Definition distanceCells_le (ax ay bx by_ r : Z) : bool :=
  let dx := (ax - bx)%Z in
  let dy := (ay - by_)%Z in
  ((0 <=? r) && (dx * dx + dy * dy <=? r * r))%Z.

(** ** Typed arrays *)

(** [arr[i]]: [None] stands for [undefined], which is what a typed array
    gives outside its bounds. *)
Definition aget {A : Type} (arr : list A) (i : Z) : option A :=
  if (i <? 0)%Z then None else arr !! Z.to_nat i.

(** [arr[i] = v]: ignored outside the bounds of a typed array. *)
Definition aset {A : Type} (arr : list A) (i : Z) (v : A) : list A :=
  if (i <? 0)%Z then arr else <[Z.to_nat i := v]> arr.

(** Reading a field strength.  Every read of the engine is inside the array
    (lemma [indexOf_in_range]); outside it
    JavaScript would produce [undefined], for which [0] stands here. *)
Definition readF (field : list Q) (i : Z) : Q := default 0 (aget field i).

(** [obstacles[i] === 1]. *)
Definition isWallAt (obst : list Z) (i : Z) : bool :=
  match aget obst i with
  | Some v => (v =? 1)%Z
  | None => false
  end.

(** ** World state (main.js, lines 73-92) *)

Record MathLib := { cos : Q -> Q; sin : Q -> Q; atan2 : Q -> Q -> Q }.

Record Ant := mkAnt {
  ant_x : Q;
  ant_y : Q;
  angle : Q;
  hasFood : bool;
  wiggle : Q
}.

Record FoodPile := mkPile { pile_x : Z; pile_y : Z; amount : Z }.

Record Flags := mkFlags { showFoodPheromone : bool; showHomePheromone : bool }.

Record World := mkWorld {
  gridWidth : Z;
  gridHeight : Z;
  toFood : list Q;
  obstacles : list Z;
  foodPiles : list FoodPile;
  ants : list Ant;
  nest : Z * Z;
  score : Z;
  ticks : Z;
  tempToFood : list Q;
  flags : Flags
}.

Definition set_toFood (w : World) (f : list Q) : World :=
  mkWorld (gridWidth w) (gridHeight w) f (obstacles w) (foodPiles w) (ants w)
          (nest w) (score w) (ticks w) (tempToFood w) (flags w).
Definition set_tempToFood (w : World) (f : list Q) : World :=
  mkWorld (gridWidth w) (gridHeight w) (toFood w) (obstacles w) (foodPiles w) (ants w)
          (nest w) (score w) (ticks w) f (flags w).
Definition set_obstacles (w : World) (o : list Z) : World :=
  mkWorld (gridWidth w) (gridHeight w) (toFood w) o (foodPiles w) (ants w)
          (nest w) (score w) (ticks w) (tempToFood w) (flags w).
Definition set_foodPiles (w : World) (p : list FoodPile) : World :=
  mkWorld (gridWidth w) (gridHeight w) (toFood w) (obstacles w) p (ants w)
          (nest w) (score w) (ticks w) (tempToFood w) (flags w).
Definition set_ants (w : World) (a : list Ant) : World :=
  mkWorld (gridWidth w) (gridHeight w) (toFood w) (obstacles w) (foodPiles w) a
          (nest w) (score w) (ticks w) (tempToFood w) (flags w).
Definition set_score (w : World) (s : Z) : World :=
  mkWorld (gridWidth w) (gridHeight w) (toFood w) (obstacles w) (foodPiles w) (ants w)
          (nest w) s (ticks w) (tempToFood w) (flags w).
Definition set_ticks (w : World) (t : Z) : World :=
  mkWorld (gridWidth w) (gridHeight w) (toFood w) (obstacles w) (foodPiles w) (ants w)
          (nest w) (score w) t (tempToFood w) (flags w).
Definition set_flags (w : World) (fl : Flags) : World :=
  mkWorld (gridWidth w) (gridHeight w) (toFood w) (obstacles w) (foodPiles w) (ants w)
          (nest w) (score w) (ticks w) (tempToFood w) fl.

Definition set_angle (a : Ant) (th : Q) : Ant :=
  mkAnt (ant_x a) (ant_y a) th (hasFood a) (wiggle a).
Definition set_pos (a : Ant) (x y : Q) : Ant :=
  mkAnt x y (angle a) (hasFood a) (wiggle a).
Definition set_hasFood (a : Ant) (b : bool) : Ant :=
  mkAnt (ant_x a) (ant_y a) (angle a) b (wiggle a).

(** The integers [lo, lo+1, ..., hi], the values of a counting [for] loop. *)
Definition zrange (lo hi : Z) : list Z :=
  map (fun k => (lo + Z.of_nat k)%Z) (seq 0 (Z.to_nat (hi - lo + 1))).

Record Sensed := mkSensed { forward : Q; left : Q; right : Q }.

Section Engine.

(** The window at load time (it fixes the grid once and for all) and the
    engine's trigonometry. *)
Variable vp : Viewport.
Variable M : MathLib.

Definition indexOf (x y : Z) : Z := (y * GRID_WIDTH vp + x)%Z.

(** *** class World (main.js, lines 73-195) *)

Definition World_new : World :=
  let gw := GRID_WIDTH vp in
  let gh := GRID_HEIGHT vp in
  {| gridWidth := gw;
     gridHeight := gh;
     toFood := replicate (Z.to_nat (gw * gh)) 0;
     obstacles := replicate (Z.to_nat (gw * gh)) 0%Z;
     foodPiles := [];
     ants := [];
     nest := ((gw / 2)%Z, (gh / 2)%Z);
     score := 0%Z;
     ticks := 0%Z;
     tempToFood := replicate (Z.to_nat (gw * gh)) 0;
     flags := {| showFoodPheromone := true; showHomePheromone := false |} |}.

(** [new Ant(x, y, angle)]: the constructor draws [wiggle]. *)
Definition Ant_new (x y th : Q) (g : Rng) : Ant * Rng :=
  let '(wg, g) := randomBetween (- Math_PI) Math_PI g in
  (mkAnt x y th false wg, g).

(** [Ant.spawnAtNest(x, y)]: the heading is drawn before the constructor runs. *)
Definition spawnAtNest (x y : Q) (g : Rng) : Ant * Rng :=
  let '(th, g) := randomBetween (- Math_PI) Math_PI g in
  Ant_new x y th g.

(** The loop shared by [reset] and [setAntCount]:
    [this.ants.push(Ant.spawnAtNest(nest.x + Math.random() - 0.5,
                                    nest.y + Math.random() - 0.5))], [n] times. *)
Fixpoint spawnAnts (n : nat) (w : World) (g : Rng) : World * Rng :=
  match n with
  | O => (w, g)
  | S k =>
      let '(r1, g) := Math_random g in
      let '(r2, g) := Math_random g in
      let '(a, g) := spawnAtNest (inject_Z (fst (nest w)) + r1 - (1 # 2))
                                 (inject_Z (snd (nest w)) + r2 - (1 # 2)) g in
      spawnAnts k (set_ants w (ants w ++ [a])) g
  end.

Definition reset (w : World) (antCount : Z) (g : Rng) : World * Rng :=
  let w := set_toFood w (replicate (length (toFood w)) 0) in
  let w := set_obstacles w (replicate (length (obstacles w)) 0%Z) in
  let w := set_foodPiles w [] in
  let w := set_ants w [] in
  let w := set_score w 0%Z in
  let w := set_ticks w 0%Z in
  spawnAnts (Z.to_nat antCount) w g.

Definition setAntCount (w : World) (targetCount : Z) (g : Rng) : World * Rng :=
  let targetCount := clampZ targetCount 1 MAX_ANTS in
  let len := Z.of_nat (length (ants w)) in
  if (targetCount >? len)%Z then
    let toAdd := (targetCount - len)%Z in
    spawnAnts (Z.to_nat toAdd) w g
  else if (targetCount <? len)%Z then
    (set_ants w (take (Z.to_nat targetCount) (ants w)), g)
  else (w, g).

(** The predicate of [foodPiles.find] in [addFood]. *)
Definition mergeable (cellX cellY : Z) (f : FoodPile) : Prop :=
  Is_true (distanceCells_le (pile_x f) (pile_y f) cellX cellY (FOOD_RADIUS_CELLS + 1)).

#[local] Instance mergeable_dec cellX cellY f : Decision (mergeable cellX cellY f).
Proof. unfold mergeable. apply _. Defined.

(** [existing] is a reference into the array: the pile is altered in place. *)
Definition addFood (w : World) (cellX cellY amount_ : Z) : World :=
  match list_find (mergeable cellX cellY) (foodPiles w) with
  | Some (i, _) =>
      set_foodPiles w
        (alter (fun f => mkPile (pile_x f) (pile_y f) (amount f + amount_)%Z) i (foodPiles w))
  | None => set_foodPiles w (foodPiles w ++ [mkPile cellX cellY amount_])
  end.

(** The body of the two loops of [setWall], for one cell [(x, y)]. *)
Definition setWallCell (cellX cellY : Z) (isWall : bool) (radiusCells : Z)
    (w : World) (x y : Z) : World :=
  if ((x <? 0) || (x >=? gridWidth w) || (y <? 0) || (y >=? gridHeight w))%Z then w
  else if distanceCells_le x y (fst (nest w)) (snd (nest w)) NEST_RADIUS_CELLS then w
  else if distanceCells_le x y cellX cellY radiusCells then
    set_obstacles w (aset (obstacles w) (indexOf x y) (if isWall then 1 else 0)%Z)
  else w.

Definition setWall (w : World) (cellX cellY : Z) (isWall : bool) (radiusCells : Z) : World :=
  fold_left
    (fun w y =>
       fold_left (fun w x => setWallCell cellX cellY isWall radiusCells w x y)
                 (zrange (cellX - radiusCells) (cellX + radiusCells)) w)
    (zrange (cellY - radiusCells) (cellY + radiusCells)) w.

(** The loop of [pickUpFoodAt] over the piles, in store order. *)
Fixpoint pickUpFrom (piles : list FoodPile) (cellX cellY : Z) : list FoodPile * bool :=
  match piles with
  | [] => ([], false)
  | f :: rest =>
      if distanceCells_le (pile_x f) (pile_y f) cellX cellY FOOD_RADIUS_CELLS
         && (amount f >? 0)%Z
      then
        let f' := mkPile (pile_x f) (pile_y f) (amount f - 1) in
        (if (amount f' <=? 0)%Z then rest else f' :: rest, true)
      else
        let '(rest', ok) := pickUpFrom rest cellX cellY in (f :: rest', ok)
  end.

Definition pickUpFoodAt (w : World) (cellX cellY : Z) : World * bool :=
  let '(piles, ok) := pickUpFrom (foodPiles w) cellX cellY in
  (set_foodPiles w piles, ok).

Definition deliverFood (w : World) : World := set_score w (score w + 1)%Z.

(** The value written to [dstF[i]] for the cell [(x, y)] (lines 168-187), as
    a number; [IEEE.storedCell] below is the same value with the rounding of
    the doubles and of the store into the [Float32Array]. *)
Definition diffuseCell (w h : Z) (srcF : list Q) (x y : Z) : Q :=
  let yTop := if (y >? 0)%Z then (y - 1)%Z else y in
  let yBot := if (y <? h - 1)%Z then (y + 1)%Z else y in
  let xL := if (x >? 0)%Z then (x - 1)%Z else x in
  let xR := if (x <? w - 1)%Z then (x + 1)%Z else x in
  let c := readF srcF (indexOf x y) in
  let n := readF srcF (indexOf x yTop) in
  let s := readF srcF (indexOf x yBot) in
  let e := readF srcF (indexOf xR y) in
  let wv := readF srcF (indexOf xL y) in
  let ne := readF srcF (indexOf xR yTop) in
  let nw := readF srcF (indexOf xL yTop) in
  let se := readF srcF (indexOf xR yBot) in
  let sw := readF srcF (indexOf xL yBot) in
  let neighborAvgF := (n + s + e + wv + ne + nw + se + sw) / 8 in
  let blendedF := c * (1 - DIFFUSION_WEIGHT) + neighborAvgF * DIFFUSION_WEIGHT in
  Qmax 0 (blendedF * (1 - EVAPORATION)).

(** The two loops of [diffuseAndEvaporate], filling the scratch buffer. *)
Definition diffuseInto (w h : Z) (srcF dstF : list Q) : list Q :=
  fold_left
    (fun dst y =>
       fold_left (fun dst x => aset dst (indexOf x y) (diffuseCell w h srcF x y))
                 (zrange 0 (w - 1)) dst)
    (zrange 0 (h - 1)) dstF.

(** [target.set(source)]: the elements of [source] are copied over the start
    of [target] (both buffers have the same length in every world). *)
Definition typedArraySet (target source : list Q) : list Q :=
  source ++ drop (length source) target.

Definition diffuseAndEvaporate (wd : World) : World :=
  let w := gridWidth wd in
  let h := gridHeight wd in
  let srcF := toFood wd in
  let dstF := diffuseInto w h srcF (tempToFood wd) in
  let wd := set_tempToFood wd dstF in
  set_toFood wd (typedArraySet (toFood wd) dstF).

(** *** class Ant (main.js, lines 198-358) *)

Definition cellX (a : Ant) : Z := Qfloor (ant_x a).
Definition cellY (a : Ant) : Z := Qfloor (ant_y a).

(** The inner loop of [sampleCone] for one lateral offset [s]. *)
Definition sampleLateral (world : World) (field : list Q) (ang : Q) (sx sy : Z)
    (acc : Q * Z) (s : Z) : Q * Z :=
  let '(sum, samples) := acc in
  let ox := Qfloor (inject_Z sx + cos M (ang + Math_PI / 2) * inject_Z s) in
  let oy := Qfloor (inject_Z sy + sin M (ang + Math_PI / 2) * inject_Z s) in
  if ((ox <? 0) || (oy <? 0) || (ox >=? gridWidth world) || (oy >=? gridHeight world))%Z
  then (sum, samples)
  else if isWallAt (obstacles world) (indexOf ox oy) then (sum, samples)
  else (sum + readF field (indexOf ox oy), (samples + 1)%Z).

Definition sampleCone (world : World) (a : Ant) (field : list Q) (ang : Q) : Q :=
  let '(sum, samples) :=
    fold_left
      (fun acc d =>
         let sx := Qfloor (ant_x a + cos M ang * inject_Z d) in
         let sy := Qfloor (ant_y a + sin M ang * inject_Z d) in
         fold_left (sampleLateral world field ang sx sy)
                   (zrange (- SENSOR_SPREAD) SENSOR_SPREAD) acc)
      (zrange 1 (SENSOR_OFFSET + 1)) (0, 0%Z) in
  if (samples >? 0)%Z then sum / inject_Z samples else 0.

Definition senseDirections (world : World) (a : Ant) (field : list Q) : Sensed :=
  let leftAngle := angle a + SENSOR_ANGLE in
  let rightAngle := angle a - SENSOR_ANGLE in
  let f := sampleCone world a field (angle a) in
  let l := sampleCone world a field leftAngle in
  let r := sampleCone world a field rightAngle in
  {| forward := f; left := l; right := r |}.

(** [handleCollisions(world, nx, ny)]: the ant with its new heading, and
    [bounced]. *)
Definition handleCollisions (world : World) (a : Ant) (nx ny : Q) (g : Rng)
    : Ant * bool * Rng :=
  let bounced := false in
  let cx := Qfloor nx in
  let cy := Qfloor ny in
  let '(a, bounced) :=
    if ((cx <? 0) || (cx >=? gridWidth world))%Z
    then (set_angle a (Math_PI - angle a), true) else (a, bounced) in
  let '(a, bounced) :=
    if ((cy <? 0) || (cy >=? gridHeight world))%Z
    then (set_angle a (- angle a), true) else (a, bounced) in
  let cx := clampZ cx 0 (gridWidth world - 1) in
  let cy := clampZ cy 0 (gridHeight world - 1) in
  if isWallAt (obstacles world) (indexOf cx cy) then
    let '(r, g) := Math_random g in
    (set_angle a (wrapAngle (angle a + Math_PI / 2 + (r - (1 # 2)))), true, g)
  else (a, bounced, g).

(** "Decide turning" (lines 227-260 of [step]): the turn and the generator
    after the draws made. *)
Definition decideTurn (world : World) (a : Ant) (sensed : Sensed) (g : Rng) : Q * Rng :=
  let signalStrength := Qmax (forward sensed) (Qmax (left sensed) (right sensed)) in
  if hasFood a then
    let dx := inject_Z (fst (nest world)) - ant_x a in
    let dy := inject_Z (snd (nest world)) - ant_y a in
    let homeAngle := atan2 M dy dx in
    let delta := wrapAngle (homeAngle - angle a) in
    let maxTurn := ANT_TURN_ANGLE in
    let turn := clamp delta (- maxTurn) maxTurn in
    if Qle_bool SCENT_THRESHOLD signalStrength then
      let turn :=
        if Qltb (right sensed) (left sensed) && Qltb (forward sensed) (left sensed)
        then turn + SENSOR_ANGLE * (25 # 100) else turn in
      let turn :=
        if Qltb (left sensed) (right sensed) && Qltb (forward sensed) (right sensed)
        then turn - SENSOR_ANGLE * (25 # 100) else turn in
      (turn, g)
    else (turn, g)
  else
    if Qle_bool SCENT_THRESHOLD signalStrength then
      if Qle_bool (left sensed) (forward sensed) && Qle_bool (right sensed) (forward sensed)
      then (0, g)
      else if Qltb (right sensed) (left sensed) then (SENSOR_ANGLE, g)
      else if Qltb (left sensed) (right sensed) then (- SENSOR_ANGLE, g)
      else let '(r, g) := Math_random g in ((r - (1 # 2)) * ANT_TURN_ANGLE, g)
    else
      let '(r, g) := Math_random g in ((r - (1 # 2)) * ANT_TURN_ANGLE, g).

(** What [step] senses (lines 219 and 224): nothing while carrying. *)
Definition sense (world : World) (a : Ant) : Sensed :=
  let preferredField := if hasFood a then None else Some (toFood world) in
  match preferredField with
  | Some field => senseDirections world a field
  | None => {| forward := 0; left := 0; right := 0 |}
  end.

(** "Turn and move" with the collision check (lines 262-273): the ant after
    it, whether it bounced, and the candidate position. *)
Definition turnAndMove (world : World) (a : Ant) (turn speedMultiplier : Q) (g : Rng)
    : Ant * bool * (Q * Q) * Rng :=
  let a := set_angle a (wrapAngle (angle a + turn)) in
  let step := ANT_STEP_SPEED * (if Qeq_bool speedMultiplier 0 then 1 else speedMultiplier) in
  let nx := ant_x a + cos M (angle a) * step in
  let ny := ant_y a + sin M (angle a) * step in
  let '(a, bounced, g) := handleCollisions world a nx ny g in
  let a := if negb bounced then set_pos a nx ny else a in
  (a, bounced, (nx, ny), g).

(** "Deposit pheromone" and "Interact with food and nest" (lines 275-299). *)
Definition depositAndInteract (world : World) (a : Ant) (depositRate : Q) : World * Ant :=
  let ix := clampZ (Qfloor (ant_x a)) 0 (gridWidth world - 1) in
  let iy := clampZ (Qfloor (ant_y a)) 0 (gridHeight world - 1) in
  let i := indexOf ix iy in
  let world :=
    if hasFood a then
      set_toFood world
        (aset (toFood world) i (Qmin PHEROMONE_MAX (readF (toFood world) i + depositRate)))
    else world in
  if negb (hasFood a) then
    let '(world, ok) := pickUpFoodAt world ix iy in
    if ok then
      let a := set_hasFood a true in
      let dx := inject_Z (fst (nest world)) - ant_x a in
      let dy := inject_Z (snd (nest world)) - ant_y a in
      (world, set_angle a (atan2 M dy dx))
    else (world, a)
  else
    if distanceCells_le ix iy (fst (nest world)) (snd (nest world)) NEST_RADIUS_CELLS then
      (deliverFood world, set_hasFood a false)
    else (world, a).

(** [ant.step(world, speedMultiplier)]: the world and the ant after it. *)
Definition step (world : World) (a : Ant) (speedMultiplier : Q) (g : Rng)
    : World * Ant * Rng :=
  let depositRate := if hasFood a then PHEROMONE_DEPOSIT_FOOD else PHEROMONE_DEPOSIT_HOME in
  let sensed := sense world a in
  let '(turn, g) := decideTurn world a sensed g in
  let '(a, _, _, g) := turnAndMove world a turn speedMultiplier g in
  let '(world, a) := depositAndInteract world a depositRate in
  (world, a, g).

(** *** The simulation loop (main.js, lines 622-633) *)

(** [for (i...) world.ants[i].step(world, speedMultiplier)]: each ant is an
    object of the array, changed in place by its own step. *)
Definition stepAnt (speedMultiplier : Q) (st : World * Rng) (i : nat) : World * Rng :=
  let '(world, g) := st in
  match ants world !! i with
  | Some a =>
      let '(world, a, g) := step world a speedMultiplier g in
      (set_ants world (<[i := a]> (ants world)), g)
  | None => (world, g)
  end.

Definition stepAnts (world : World) (speedMultiplier : Q) (g : Rng) : World * Rng :=
  fold_left (stepAnt speedMultiplier) (seq 0 (length (ants world))) (world, g).

Definition tick (world : World) (speedMultiplier : Q) (g : Rng) : World * Rng :=
  let '(world, g) := stepAnts world speedMultiplier g in
  let world := diffuseAndEvaporate world in
  (set_ticks world (ticks world + 1)%Z, g).

End Engine.

Arguments indexOf vp x y : simpl never.

(** ** Rendering, input and the main loop (main.js, lines 361-641) *)

(** The colour [drawWorld] computes for a cell from its field strength
    (lines 377-385): red, green, blue and alpha. *)
Definition cellColor (showFood : bool) (toFoodVal : Q) : Z * Z * Z * Z :=
  let foodAlpha := if showFood then clamp (toFoodVal / PHEROMONE_MAX) 0 1 else 0 in
  let homeAlpha := 0 in
  let cellR := Qfloor (160 * homeAlpha) in
  let cellG := Qfloor (180 * foodAlpha) in
  let cellB := Qfloor (220 * (foodAlpha * (2 # 10) + homeAlpha * (2 # 10))) in
  let cellA := Qfloor (255 * Qmax (foodAlpha * (55 # 100)) (homeAlpha * (55 # 100))) in
  (cellR, cellG, cellB, cellA).

(** [canvas.getBoundingClientRect()] and the pointer event, as far as
    [getMouseCell] reads them. *)
Record Rect := { rect_left : Q; rect_top : Q; rect_width : Q; rect_height : Q }.
Record PointerEvent := { clientX : Q; clientY : Q }.

(** The [state] object of [main]. *)
Record UiState := { running : bool; speedMultiplier : Q; foodSize : Z }.

Inductive Tool : Set := FOOD | WALL | ERASE.

(** [Interaction.getMouseCell(evt)], for a canvas of the given pixel size. *)
Definition getMouseCell (world : World) (canvasWidth canvasHeight : Z) (rect : Rect)
    (evt : PointerEvent) : Z * Z :=
  let scaleX := inject_Z canvasWidth / rect_width rect in
  let scaleY := inject_Z canvasHeight / rect_height rect in
  let x := (clientX evt - rect_left rect) * scaleX in
  let y := (clientY evt - rect_top rect) * scaleY in
  let cellX := clampZ (Qfloor (x / inject_Z CELL_SIZE)) 0 (gridWidth world - 1) in
  let cellY := clampZ (Qfloor (y / inject_Z CELL_SIZE)) 0 (gridHeight world - 1) in
  (cellX, cellY).

(** [Interaction._act(evt)] with the active tool. *)
Definition act (vp : Viewport) (activeTool : Tool) (state : UiState) (world : World)
    (canvasWidth canvasHeight : Z) (rect : Rect) (evt : PointerEvent) : World :=
  let '(cellX, cellY) := getMouseCell world canvasWidth canvasHeight rect evt in
  match activeTool with
  | FOOD => addFood world cellX cellY (foodSize state)
  | WALL => setWall vp world cellX cellY true 2
  | ERASE => setWall vp world cellX cellY false 2
  end.

(** The "change" handler of the trail checkbox (lines 501-503):
    [world.flags.showFoodPheromone = e.target.checked]. *)
Definition setShowFoodPheromone (world : World) (checked : bool) : World :=
  set_flags world
    {| showFoodPheromone := checked; showHomePheromone := showHomePheromone (flags world) |}.

(** [for (s = 0; s < steps; s++)] around one tick. *)
Fixpoint runTicks (vp : Viewport) (M : MathLib) (steps : nat) (world : World)
    (speed : Q) (g : Rng) : World * Rng :=
  match steps with
  | O => (world, g)
  | S k =>
      let '(world, g) := tick vp M world speed g in
      runTicks vp M k world speed g
  end.


(** ** The worlds the program can be in *)

(** Every draw of [Math.random] lies in [[0, 1)]. *)
Definition validRng (g : Rng) : Prop := forall n, 0 <= g n /\ g n < 1.

(** The worlds reachable from [new World()] through the calls the page
    makes between ticks and through ticks, with any arguments. *)
Inductive reachable (vp : Viewport) (M : MathLib) : World -> Prop :=
| reach_new : reachable vp M (World_new vp)
| reach_reset w antCount g :
    reachable vp M w -> validRng g -> reachable vp M (fst (reset w antCount g))
| reach_setAntCount w targetCount g :
    reachable vp M w -> validRng g -> reachable vp M (fst (setAntCount w targetCount g))
| reach_addFood w cx cy amt :
    reachable vp M w -> reachable vp M (addFood w cx cy amt)
| reach_setWall w cx cy isWall radiusCells :
    reachable vp M w -> reachable vp M (setWall vp w cx cy isWall radiusCells)
| reach_tick w speedMultiplier g :
    reachable vp M w -> validRng g -> reachable vp M (fst (tick vp M w speedMultiplier g))
| reach_showFood w checked :
    reachable vp M w -> reachable vp M (setShowFoodPheromone w checked).

(** The shape every world keeps: the grid of the module constants, the nest
    at its centre, and three arrays of one cell each. *)
Record shaped (vp : Viewport) (w : World) : Prop := mkShaped {
  shaped_gw : gridWidth w = GRID_WIDTH vp;
  shaped_gh : gridHeight w = GRID_HEIGHT vp;
  shaped_nest : nest w = ((GRID_WIDTH vp / 2)%Z, (GRID_HEIGHT vp / 2)%Z);
  shaped_toFood : length (toFood w) = Z.to_nat (GRID_WIDTH vp * GRID_HEIGHT vp);
  shaped_temp : length (tempToFood w) = Z.to_nat (GRID_WIDTH vp * GRID_HEIGHT vp);
  shaped_obst : length (obstacles w) = Z.to_nat (GRID_WIDTH vp * GRID_HEIGHT vp)
}.

(** ** Invariants and observations *)

(** A field strength within its bounds. *)
Definition inBounds (v : Q) : Prop := 0 <= v /\ v <= PHEROMONE_MAX.

(** Both buffers of the scent field hold values within the bounds. *)
Definition fieldBounded (w : World) : Prop :=
  Forall inBounds (toFood w) /\ Forall inBounds (tempToFood w).

(** An ant whose cell is a cell of the grid. *)
Definition onGrid (w : World) (a : Ant) : Prop :=
  (0 <= cellX a < gridWidth w)%Z /\ (0 <= cellY a < gridHeight w)%Z.

(** Every ant of the world is on the grid. *)
Definition antsOnGrid (w : World) : Prop := Forall (onGrid w) (ants w).

(** The cell is within [NEST_RADIUS_CELLS] of the nest (line 295). *)
Definition atNest (w : World) (x y : Z) : bool :=
  distanceCells_le x y (fst (nest w)) (snd (nest w)) NEST_RADIUS_CELLS.

(** No cell of the grid within [NEST_RADIUS_CELLS] of the nest is blocked. *)
Definition nestClear (vp : Viewport) (w : World) : Prop :=
  forall x y, (0 <= x < gridWidth w)%Z -> (0 <= y < gridHeight w)%Z ->
    atNest w x y = true -> isWallAt (obstacles w) (indexOf vp x y) = false.

(** The strength of the scent field at the cell [(x, y)]. *)
Definition scentAt (vp : Viewport) (w : World) (x y : Z) : Q :=
  readF (toFood w) (indexOf vp x y).

(** [n] field advances in a row, with no step of any ant in between. *)
Definition advanceN (vp : Viewport) (n : nat) (w : World) : World :=
  Nat.iter n (diffuseAndEvaporate vp) w.

(** ** Vocabulary of the statements about [step] *)

(** The two behavioural states of an ant, read off its carrying flag. *)
Inductive AntState : Set := SEARCHING | RETURNING.

Definition stateOf (a : Ant) : AntState := if hasFood a then RETURNING else SEARCHING.

(** The deposit rate [step] selects from the carrying flag (line 221). *)
Definition depositRateOf (a : Ant) : Q :=
  if hasFood a then PHEROMONE_DEPOSIT_FOOD else PHEROMONE_DEPOSIT_HOME.

(** The strongest of the three sensed values (line 225). *)
Definition signalStrength (s : Sensed) : Q := Qmax (forward s) (Qmax (left s) (right s)).

(** What a carrying ant senses: nothing. *)
Definition noSignal : Sensed := {| forward := 0; left := 0; right := 0 |}.

(** The undirected turn of [step]: [(Math.random() - 0.5) * ANT_TURN_ANGLE]
    for the draw [d] (lines 254 and 258). *)
Definition wanderTurn (d : Q) : Q := (d - (1 # 2)) * ANT_TURN_ANGLE.

(** The bearing from the ant straight to the nest (lines 231-233). *)
Definition homeAngle (M : MathLib) (w : World) (a : Ant) : Q :=
  atan2 M (inject_Z (snd (nest w)) - ant_y a) (inject_Z (fst (nest w)) - ant_x a).

(** The heading of [step] after "Turn and move" applied the turn. *)
Definition turnedHeading (vp : Viewport) (M : MathLib) (w : World) (a : Ant) (g : Rng) : Q :=
  wrapAngle (angle a + fst (decideTurn M w a (sense vp M w a) g)).

(** The length of the move of this tick. *)
Definition stepLength (speedMultiplier : Q) : Q :=
  ANT_STEP_SPEED * (if Qeq_bool speedMultiplier 0 then 1 else speedMultiplier).

(** The candidate next position of [step] (lines 265-266). *)
Definition candidate (vp : Viewport) (M : MathLib) (w : World) (a : Ant)
    (speedMultiplier : Q) (g : Rng) : Q * Q :=
  let h := turnedHeading vp M w a g in
  (ant_x a + cos M h * stepLength speedMultiplier,
   ant_y a + sin M h * stepLength speedMultiplier).

(** A candidate cell coordinate [c] lies outside [[0, size)]. *)
Definition outside (c size : Z) : bool := ((c <? 0) || (c >=? size))%Z.

(** The cell tested against the obstacle mask: the candidate cell clamped
    to the grid. *)
Definition blockedAt (vp : Viewport) (w : World) (nx ny : Q) : bool :=
  isWallAt (obstacles w)
    (indexOf vp (clampZ (Qfloor nx) 0 (gridWidth w - 1))
                (clampZ (Qfloor ny) 0 (gridHeight w - 1))).

(** Whether the candidate position of [step] triggers a reflection. *)
Definition bounces (vp : Viewport) (M : MathLib) (w : World) (a : Ant)
    (speedMultiplier : Q) (g : Rng) : bool :=
  let '(nx, ny) := candidate vp M w a speedMultiplier g in
  outside (Qfloor nx) (gridWidth w) || outside (Qfloor ny) (gridHeight w)
  || blockedAt vp w nx ny.

(** The heading [handleCollisions] leaves, from the heading [h] it starts
    with and the draw [r] it makes when the cell is an obstacle. *)
Definition reflectedHeading (vp : Viewport) (w : World) (h nx ny r : Q) : Q :=
  let h1 := if outside (Qfloor nx) (gridWidth w) then Math_PI - h else h in
  let h2 := if outside (Qfloor ny) (gridHeight w) then - h1 else h1 in
  if blockedAt vp w nx ny then wrapAngle (h2 + Math_PI / 2 + (r - (1 # 2))) else h2.

(** The ant of [step] once it has turned, moved and resolved its collision,
    before it deposits and interacts. *)
Definition movedAnt (vp : Viewport) (M : MathLib) (w : World) (a : Ant)
    (speedMultiplier : Q) (g : Rng) : Ant :=
  let tg := decideTurn M w a (sense vp M w a) g in
  (turnAndMove vp M w a (fst tg) speedMultiplier (snd tg)).1.1.1.

(** ** The evaporation of one cell in IEEE arithmetic

    The same lines 186-188 of [diffuseAndEvaporate], this time with the
    rounding the engine performs: binary64 operations, and a rounding to
    binary32 when the result is stored in the [Float32Array]. *)
Module IEEE.

Definition add64 : spec_float -> spec_float -> spec_float := SFadd 53 1024.
Definition sub64 : spec_float -> spec_float -> spec_float := SFsub 53 1024.
Definition mul64 : spec_float -> spec_float -> spec_float := SFmul 53 1024.
Definition div64 : spec_float -> spec_float -> spec_float := SFdiv 53 1024.

(** An integer literal. *)
Definition ofZ (z : Z) : spec_float := binary_normalize 53 1024 z 0 false.

(** The literals [0.006], [0.0] and [0.45]: the doubles nearest to them. *)
Definition EVAPORATION64 : spec_float := div64 (ofZ 6) (ofZ 1000).
Definition DIFFUSION_WEIGHT64 : spec_float := S754_zero false.
Definition PHEROMONE_DEPOSIT_FOOD64 : spec_float := div64 (ofZ 45) (ofZ 100).

(** Storing a number in a [Float32Array]: rounding to the nearest binary32. *)
Definition toFloat32 (x : spec_float) : spec_float :=
  match x with
  | S754_finite s m e => binary_normalize 24 128 (cond_Zopp s (Z.pos m)) e s
  | _ => x
  end.

(** Reading it back: the same number as a double. *)
Definition ofFloat32 (x : spec_float) : spec_float :=
  match x with
  | S754_finite s m e => binary_normalize 53 1024 (cond_Zopp s (Z.pos m)) e s
  | _ => x
  end.

(** [Math.max(0, x)] for a number [x]. *)
Definition maxZero (x : spec_float) : spec_float :=
  if SFltb (S754_zero false) x then x else S754_zero false.

(** What the advance stores for a cell holding [c] whose neighbours
    average [neighborAvgF]. *)
Definition storedCell (c neighborAvgF : spec_float) : spec_float :=
  let c := ofFloat32 c in
  let blendedF :=
    add64 (mul64 c (sub64 (ofZ 1) DIFFUSION_WEIGHT64)) (mul64 neighborAvgF DIFFUSION_WEIGHT64) in
  toFloat32 (maxZero (mul64 blendedF (sub64 (ofZ 1) EVAPORATION64))).

(** One advance of an isolated cell (its neighbours hold 0). *)
Definition advanceCell (c : spec_float) : spec_float := storedCell c (S754_zero false).

(** The smallest positive binary32, 2^-149. *)
Definition smallest32 : spec_float := S754_finite false 1 (-149).

(** One deposit on an empty cell, as stored. *)
Definition deposit32 : spec_float := toFloat32 PHEROMONE_DEPOSIT_FOOD64.

End IEEE.

(** ** The frame clock of the main loop (main.js, lines 615-620)

    The time stamps [now] and [last] are doubles, and the number of ticks of
    a frame hangs on how their quotient by [16.6667] is rounded, so this part
    is evaluated in binary64. *)

(** The number a finite double stands for (0 for the others). *)
Definition valueQ (x : spec_float) : Q :=
  match x with
  | S754_finite s m e =>
      match e with
      | Zneg p => cond_Zopp s (Z.pos m) # (2 ^ p)%positive
      | _ => inject_Z (cond_Zopp s (Z.pos m) * 2 ^ e)
      end
  | _ => 0
  end.

(** Zero or a finite non-zero double. *)
Definition isFinite (x : spec_float) : bool :=
  match x with
  | S754_zero _ | S754_finite _ _ _ => true
  | _ => false
  end.

(** The literal [16.6667]: the double nearest to it. *)
Definition TICK_MS : spec_float := IEEE.div64 (IEEE.ofZ 166667) (IEEE.ofZ 10000).

(** [const dt = (now - last) / 16.6667] (line 618). *)
Definition frameDt (now last : spec_float) : spec_float :=
  IEEE.div64 (IEEE.sub64 now last) TICK_MS.

(** The number of ticks [loop(now)] runs (lines 620-622):
    [steps = state.running ? Math.max(1, Math.floor(dt)) : 0] and then
    [for (s = 0; s < steps; s++)].  With [dt] not a number so is [steps], and
    [s < steps] fails at once; with [dt] minus infinity [steps] is 1; with
    [dt] plus infinity the [for] loop never ends, which is [None] here. *)
Definition frameSteps (state : UiState) (now last : spec_float) : option Z :=
  let dt := frameDt now last in
  if running state then
    match dt with
    | S754_nan => Some 0%Z
    | S754_infinity false => None
    | S754_infinity true => Some 1%Z
    | _ => Some (Z.max 1 (Qfloor (valueQ dt)))
    end
  else Some 0%Z.

(** The simulation part of [loop(now)]: the world, the new value of [last]
    and the generator after it, when the frame ends. *)
Definition loop (vp : Viewport) (M : MathLib) (state : UiState) (now last : spec_float)
    (world : World) (g : Rng) : option (World * spec_float * Rng) :=
  match frameSteps state now last with
  | Some steps =>
      let '(world, g) := runTicks vp M (Z.to_nat steps) world (speedMultiplier state) g in
      Some (world, now, g)
  | None => None
  end.

(** The time stamp [33.3334], two tick periods after 0. *)
Definition twoPeriods : spec_float := IEEE.div64 (IEEE.ofZ 333334) (IEEE.ofZ 10000).

(** ** Concrete inputs used in examples *)

(** A desktop window: the 233 x 93 grid. *)
Definition desktop : Viewport := {| isMobileQuery := false; innerWidth := 1440 |}.

(** A narrow phone window: the smallest grid, 40 x 40. *)
Definition phone : Viewport := {| isMobileQuery := true; innerWidth := 200 |}.

(** Trigonometry that answers as for a heading due east, whatever the angle. *)
Definition eastMath : MathLib :=
  {| cos := fun _ => 1; sin := fun _ => 0; atan2 := fun _ _ => 0 |}.

(** A generator whose every draw is one half. *)
Definition halfRng : Rng := fun _ => 1 # 2.

(** A phone world after a reset with three ants and one tick at speed 1. *)
Definition tickedWorld : World :=
  fst (tick phone eastMath (fst (reset (World_new phone) 3 halfRng)) 1 halfRng).

(** A searching ant next to a pile, and a carrying ant next to the nest, on
    the phone grid (nest at (20, 20)). *)
Definition forager : Ant := mkAnt (10 # 1) (10 # 1) 0 false 0.
Definition carrier : Ant := mkAnt (21 # 1) (20 # 1) 0 true 0.

(** A phone world with one pile of two units at (11, 10). *)
Definition pileWorld : World := addFood (World_new phone) 11 10 2.

(** An ant of the phone grid one tenth of a cell from the right edge,
    heading east. *)
Definition edgeAnt : Ant := mkAnt (399 # 10) (20 # 1) 0 false 0.

(** A phone world after painting a wall of radius 5 centred on the nest. *)
Definition walledWorld : World := setWall phone (World_new phone) 20 20 true 5.

(** Equal scent to the left and to the right, none ahead. *)
Definition tieSensed : Sensed := {| forward := 0; left := 1; right := 1 |}.

(** A phone world with a trail: one ant is spawned on the nest (20, 20),
    food is put two cells east of it, and two ticks run.  In the first the
    ant picks a unit up, in the second it deposits on its cell and delivers. *)
Definition trailWorld : World :=
  let w0 := fst (reset (World_new phone) 1 halfRng) in
  let w1 := addFood w0 22 20 5 in
  let w2 := fst (tick phone eastMath w1 1 halfRng) in
  fst (tick phone eastMath w2 1 halfRng).

(** An ant as [spawnAtNest] makes it for the loop of [reset] and
    [setAntCount]: searching, within half a cell of the nest on either axis,
    heading and wiggle in [[-PI, PI)]. *)
Definition freshAnt (w : World) (a : Ant) : Prop :=
  hasFood a = false
  /\ inject_Z (fst (nest w)) - (1 # 2) <= ant_x a /\ ant_x a < inject_Z (fst (nest w)) + (1 # 2)
  /\ inject_Z (snd (nest w)) - (1 # 2) <= ant_y a /\ ant_y a < inject_Z (snd (nest w)) + (1 # 2)
  /\ - Math_PI <= angle a /\ angle a < Math_PI
  /\ - Math_PI <= wiggle a /\ wiggle a < Math_PI.

(** The units of food lying in piles, and the ants carrying one. *)
Definition pilesTotal (piles : list FoodPile) : Z :=
  fold_right (fun f acc => (amount f + acc)%Z) 0%Z piles.

Definition carriedBy (l : list Ant) : Z :=
  fold_right (fun a acc => ((if hasFood a then 1 else 0) + acc)%Z) 0%Z l.

(** A pile a pickup at the cell can take from (line 145). *)
Definition eligible (cellX cellY : Z) (f : FoodPile) : bool :=
  distanceCells_le (pile_x f) (pile_y f) cellX cellY FOOD_RADIUS_CELLS && (amount f >? 0)%Z.

(** The clamped cell of an ant, the one [step] deposits on and interacts at
    (lines 276-278). *)
Definition cellIndex (vp : Viewport) (w : World) (a : Ant) : Z :=
  indexOf vp (clampZ (cellX a) 0 (gridWidth w - 1)) (clampZ (cellY a) 0 (gridHeight w - 1)).

(** Whether the pickup of a searching ant standing where [a] stands succeeds. *)
Definition picksUp (w : World) (a : Ant) : bool :=
  (pickUpFoodAt w (clampZ (cellX a) 0 (gridWidth w - 1))
                  (clampZ (cellY a) 0 (gridHeight w - 1))).2.

(** Every unit of food of the world: in a pile, on an ant, or delivered. *)
Definition foodLedger (w : World) : Z :=
  (pilesTotal (foodPiles w) + carriedBy (ants w) + score w)%Z.

(** One unit for a carrying ant, none for a searching one. *)
Definition load (a : Ant) : Z := if hasFood a then 1%Z else 0%Z.

(** Whether [setWall(cellX, cellY, _, radiusCells)] writes the cell [(x, y)]
    of the world: a cell of the grid, outside the nest zone, within the
    radius of the centre (lines 131-133). *)
Definition painted (w : World) (cellX cellY radiusCells x y : Z) : bool :=
  negb ((x <? 0) || (x >=? gridWidth w) || (y <? 0) || (y >=? gridHeight w))%Z
  && negb (atNest w x y)
  && distanceCells_le x y cellX cellY radiusCells.

(** The generator after [k] draws. *)
Definition dropRng (k : nat) (g : Rng) : Rng := fun n => g (k + n)%nat.

(** [g'] is [g] after some number of draws. *)
Definition laterRng (g' g : Rng) : Prop := exists k, forall n, g' n = g (k + n)%nat.

(** The phone canvas shown unscaled at the top left of the page, a pointer
    on it, and the state of the controls at load. *)
Definition pageRect : Rect :=
  {| rect_left := 0; rect_top := 0; rect_width := 240; rect_height := 240 |}.
Definition pointerAt : PointerEvent := {| clientX := 100; clientY := 50 |}.
Definition initialUi : UiState := {| running := false; speedMultiplier := 1; foodSize := 100 |}.

(** The trail world after the trail display has been switched off. *)
Definition hiddenTrailWorld : World := setShowFoodPheromone trailWorld false.

(** Trigonometry that is exact on the four axes: [atan2] answers PI for a
    point due west, 0 for one due east, and a quarter turn up or down
    otherwise. *)
Definition compassMath : MathLib :=
  {| cos := fun _ => 1; sin := fun _ => 0;
     atan2 := fun dy dx =>
       if Qeq_bool dy 0 then (if Qltb dx 0 then Math_PI else 0)
       else if Qltb 0 dy then Math_PI / 2 else - (Math_PI / 2) |}.

(** A carrying ant one cell east of the nest and heading 3 radians
    clockwise of east, a little short of due west. *)
Definition wrapCarrier : Ant := mkAnt (21 # 1) (20 # 1) (-3) true 0.

(** ** The trail of one deposit, as the [Float32Array] stores it *)

(** The cell after [n] advances that follow one deposit on an empty cell. *)
Definition trail32 (n : nat) : spec_float := Nat.iter n IEEE.advanceCell IEEE.deposit32.

(** The value at which that trail comes to rest, 83 * 2^-149, and a number
    of advances after which it has. *)
Definition stall32 : spec_float := S754_finite false 83 (-149).
Definition stallAfter : nat := Z.to_nat 20000.

(** Whether the next [k] advances of a cell holding [c] each leave a
    positive value no greater than the one before. *)
Fixpoint decays (k : nat) (c : spec_float) : bool :=
  match k with
  | O => true
  | S k =>
      let c' := IEEE.advanceCell c in
      SFltb (S754_zero false) c' && SFleb c' c && decays k c'
  end.

(** * Proofs *)

#[local] Arguments Qplus : simpl never.
#[local] Arguments Qminus : simpl never.
#[local] Arguments Qmult : simpl never.
#[local] Arguments Qdiv : simpl never.
#[local] Arguments Qopp : simpl never.
#[local] Arguments Qinv : simpl never.
#[local] Arguments Qfloor : simpl never.
#[local] Arguments Qle_bool : simpl never.
#[local] Arguments Qeq_bool : simpl never.
#[local] Arguments inject_Z : simpl never.
#[local] Arguments wrapAngle : simpl never.
#[local] Arguments clampZ : simpl never.

(** ** Basic facts *)

Lemma GRID_WIDTH_range vp : (40 <= GRID_WIDTH vp <= 233)%Z.
Proof.
  unfold GRID_WIDTH, computeCanvasSize, CELL_SIZE.
  destruct (isMobileQuery vp); simpl.
  - rewrite Z.div_mul by lia.
    assert (Z.max 240 (Z.min 700 (innerWidth vp - 32)) / 6 <= 700 / 6)%Z
      by (apply Z.div_le_mono; lia).
    change (700 / 6)%Z with 116%Z in *. lia.
  - change (1400 / 6)%Z with 233%Z. lia.
Qed.

Lemma GRID_HEIGHT_range vp : (40 <= GRID_HEIGHT vp <= 116)%Z.
Proof.
  unfold GRID_HEIGHT, computeCanvasSize, CELL_SIZE.
  destruct (isMobileQuery vp); simpl.
  - rewrite Z.div_mul by lia.
    assert (Z.max 240 (Z.min 700 (innerWidth vp - 32)) / 6 <= 700 / 6)%Z
      by (apply Z.div_le_mono; lia).
    change (700 / 6)%Z with 116%Z in *. lia.
  - change (560 / 6)%Z with 93%Z. lia.
Qed.

Lemma indexOf_in_range vp x y :
  (0 <= x < GRID_WIDTH vp)%Z -> (0 <= y < GRID_HEIGHT vp)%Z ->
  (0 <= indexOf vp x y < GRID_WIDTH vp * GRID_HEIGHT vp)%Z.
Proof. unfold indexOf. nia. Qed.

Lemma indexOf_inj vp x y x' y' :
  (0 <= x < GRID_WIDTH vp)%Z -> (0 <= x' < GRID_WIDTH vp)%Z ->
  indexOf vp x y = indexOf vp x' y' -> x = x' /\ y = y'.
Proof. unfold indexOf. intros Hx Hx' E. assert (y = y') by nia. subst. lia. Qed.

Lemma elem_of_zrange lo hi k : k ∈ zrange lo hi <-> (lo <= k <= hi)%Z.
Proof.
  unfold zrange. rewrite list_elem_of_fmap. split.
  - intros [n [-> Hn]]. apply elem_of_seq in Hn. lia.
  - intros H. exists (Z.to_nat (k - lo)). split; [lia|]. apply elem_of_seq. lia.
Qed.

Lemma length_aset {A} (arr : list A) i v : length (aset arr i v) = length arr.
Proof. unfold aset. destruct (i <? 0)%Z; [done|]. apply length_insert. Qed.

Lemma aget_aset_eq {A} (arr : list A) i v :
  (0 <= i < Z.of_nat (length arr))%Z -> aget (aset arr i v) i = Some v.
Proof.
  intros H. unfold aget, aset. destruct (Z.ltb_spec i 0); [lia|].
  apply list_lookup_insert_eq. lia.
Qed.

Lemma aget_aset_ne {A} (arr : list A) i j v :
  (0 <= j)%Z -> i <> j -> aget (aset arr i v) j = aget arr j.
Proof.
  intros Hj Hne. unfold aget, aset. destruct (Z.ltb_spec j 0); [lia|].
  destruct (Z.ltb_spec i 0); [done|]. apply list_lookup_insert_ne. lia.
Qed.

Lemma Forall_aset {A} (P : A -> Prop) (arr : list A) i v :
  Forall P arr -> P v -> Forall P (aset arr i v).
Proof.
  intros Harr Hv. unfold aset. destruct (i <? 0)%Z; [done|].
  apply Forall_insert; done.
Qed.

(** ** What each operation leaves alone *)

Lemma spawnAnts_frame n : forall w g,
  exists l, fst (spawnAnts n w g) = set_ants w (ants w ++ l).
Proof.
  induction n as [|n IH]; intros w g; simpl.
  - exists []. rewrite app_nil_r. by destruct w.
  - match goal with
    | |- context [spawnAnts n (set_ants w (ants w ++ [?a])) ?g'] =>
        destruct (IH (set_ants w (ants w ++ [a])) g') as [l ->]; exists (a :: l)
    end.
    simpl. by rewrite <- app_assoc.
Qed.

(** Replaces the world [spawnAnts] returns by the world it was given with
    more ants. *)
Ltac spawn_frame :=
  match goal with
  | |- context [spawnAnts ?n ?w0 ?g0] =>
      let l := fresh "l" in destruct (spawnAnts_frame n w0 g0) as [l ->]
  end.

Lemma pickUpFoodAt_frame w cx cy :
  fst (pickUpFoodAt w cx cy) = set_foodPiles w (fst (pickUpFrom (foodPiles w) cx cy)).
Proof. unfold pickUpFoodAt. by destruct (pickUpFrom _ _ _). Qed.

Lemma setWallCell_frame vp cx cy b r w x y :
  exists o, setWallCell vp cx cy b r w x y = set_obstacles w o
            /\ length o = length (obstacles w).
Proof.
  assert (Hid : exists o, w = set_obstacles w o /\ length o = length (obstacles w))
    by (exists (obstacles w); split; [by destruct w | done]).
  unfold setWallCell.
  destruct (_ || _ || _ || _); [exact Hid|].
  destruct (distanceCells_le x y _ _ _); [exact Hid|].
  destruct (distanceCells_le x y _ _ _); [|exact Hid].
  eexists; split; [reflexivity | apply length_aset].
Qed.

Lemma setWall_frame vp w cx cy b r :
  exists o, setWall vp w cx cy b r = set_obstacles w o
            /\ length o = length (obstacles w).
Proof.
  unfold setWall.
  generalize (zrange (cy - r) (cy + r)) as ys.
  generalize (zrange (cx - r) (cx + r)) as xs.
  intros xs ys. revert w.
  induction ys as [|y ys IHy]; intros w; simpl.
  - exists (obstacles w). split; [by destruct w | done].
  - assert (Hrow : forall xs w, exists o,
              fold_left (fun w x => setWallCell vp cx cy b r w x y) xs w = set_obstacles w o
              /\ length o = length (obstacles w)).
    { clear. induction xs as [|x xs IHx]; intros w; simpl.
      - exists (obstacles w). split; [by destruct w | done].
      - destruct (setWallCell_frame vp cx cy b r w x y) as [o [-> Ho]].
        destruct (IHx (set_obstacles w o)) as [o' [-> Ho']].
        exists o'. split; [done | simpl in Ho'; congruence]. }
    destruct (Hrow xs w) as [o [-> Ho]].
    destruct (IHy (set_obstacles w o)) as [o' [-> Ho']].
    exists o'. split; [done | simpl in Ho'; congruence].
Qed.

Lemma length_diffuseInto vp w h srcF dstF :
  length (diffuseInto vp w h srcF dstF) = length dstF.
Proof.
  unfold diffuseInto.
  generalize (zrange 0 (h - 1)) as ys. generalize (zrange 0 (w - 1)) as xs.
  intros xs ys. revert dstF.
  induction ys as [|y ys IHy]; intros dstF; simpl; [done|].
  rewrite IHy. clear IHy. revert dstF.
  induction xs as [|x xs IHx]; intros dstF; simpl; [done|].
  rewrite IHx. apply length_aset.
Qed.

Lemma typedArraySet_same_length (target source : list Q) :
  length source = length target -> typedArraySet target source = source.
Proof.
  intros H. unfold typedArraySet. rewrite drop_ge by lia. apply app_nil_r.
Qed.

Lemma depositAndInteract_frame vp M w a rate :
  exists f p s b th,
    depositAndInteract vp M w a rate
    = (mkWorld (gridWidth w) (gridHeight w) f (obstacles w) p (ants w) (nest w) s
               (ticks w) (tempToFood w) (flags w),
       mkAnt (ant_x a) (ant_y a) th b (wiggle a))
    /\ length f = length (toFood w).
Proof.
  destruct a as [x y th hf wg]. unfold depositAndInteract. simpl.
  set (ix := clampZ _ _ _). set (iy := clampZ _ _ _).
  destruct hf; simpl.
  - destruct (distanceCells_le _ _ _ _ _); do 5 eexists;
      (split; [reflexivity | apply length_aset]).
  - unfold pickUpFoodAt. destruct (pickUpFrom _ _ _) as [piles [|]]; simpl;
      do 5 eexists; (split; [reflexivity | reflexivity]).
Qed.

Lemma step_unfold vp M w a sm g :
  step vp M w a sm g
  = (let tg := decideTurn M w a (sense vp M w a) g in
     let tm := turnAndMove vp M w a (fst tg) sm (snd tg) in
     let di := depositAndInteract vp M w (movedAnt vp M w a sm g) (depositRateOf a) in
     (fst di, snd di, snd tm)).
Proof.
  unfold step, movedAnt, depositRateOf.
  destruct (decideTurn _ _ _ _ _) as [turn g1]. simpl.
  destruct (turnAndMove _ _ _ _ _ _ _) as [[[a1 b] c] g2]. simpl.
  by destruct (depositAndInteract _ _ _ _ _).
Qed.

Lemma fold_left_preserves {A B : Type} (f : A -> B -> A) (P : A -> Prop) (l : list B) :
  (forall a b, b ∈ l -> P a -> P (f a b)) -> forall a, P a -> P (fold_left f l a).
Proof.
  induction l as [|b l IH]; intros Hf a Ha; simpl; [done|].
  apply IH.
  - intros a' b' Hb'. apply Hf. by right.
  - apply Hf; [by left | done].
Qed.

(** One iteration of the ant loop: either the index holds no ant, or that
    ant is stepped and its slot holds the stepped ant. *)
Lemma stepAnt_cases vp M sm w g i :
  (ants w !! i = None /\ stepAnt vp M sm (w, g) i = (w, g))
  \/ exists a, ants w !! i = Some a
       /\ stepAnt vp M sm (w, g) i
          = (set_ants (step vp M w a sm g).1.1
                      (<[i := (step vp M w a sm g).1.2]> (ants (step vp M w a sm g).1.1)),
             (step vp M w a sm g).2).
Proof.
  unfold stepAnt. destruct (ants w !! i) as [a|] eqn:E; [right | by left].
  exists a. split; [done|]. by destruct (step vp M w a sm g) as [[w' a'] g'].
Qed.

Lemma step_frame vp M w a sm g :
  exists f p s,
    (step vp M w a sm g).1.1
    = mkWorld (gridWidth w) (gridHeight w) f (obstacles w) p (ants w) (nest w) s
              (ticks w) (tempToFood w) (flags w)
    /\ length f = length (toFood w).
Proof.
  rewrite step_unfold. simpl.
  destruct (depositAndInteract_frame vp M w (movedAnt vp M w a sm g) (depositRateOf a))
    as (f & p & s & b & th & -> & Hlen).
  by exists f, p, s.
Qed.

(** ** Every reachable world is well shaped *)

Lemma shaped_set_ants vp w l : shaped vp w -> shaped vp (set_ants w l).
Proof. intros []. by constructor. Qed.

Lemma shaped_stepAnts vp M w sm g :
  shaped vp w -> shaped vp (stepAnts vp M w sm g).1.
Proof.
  intros Hw. unfold stepAnts.
  apply (fold_left_preserves (stepAnt vp M sm) (fun st => shaped vp st.1)); [|done].
  intros [w1 g1] i _ H1. simpl in H1.
  destruct (stepAnt_cases vp M sm w1 g1 i) as [[_ ->] | (a & _ & ->)]; [done|].
  simpl. apply shaped_set_ants.
  destruct (step_frame vp M w1 a sm g1) as (f & p & s & -> & Hlen).
  destruct H1. constructor; simpl; congruence.
Qed.

Lemma shaped_diffuseAndEvaporate vp w :
  shaped vp w -> shaped vp (diffuseAndEvaporate vp w).
Proof.
  intros []. unfold diffuseAndEvaporate. constructor; simpl; try done.
  - rewrite typedArraySet_same_length; rewrite length_diffuseInto; congruence.
  - rewrite length_diffuseInto; congruence.
Qed.

Lemma shaped_World_new vp : shaped vp (World_new vp).
Proof. constructor; simpl; try done; apply length_replicate. Qed.

Lemma reachable_shaped vp M w : reachable vp M w -> shaped vp w.
Proof.
  induction 1 as [|w n g _ IH _|w n g _ IH _|w cx cy amt _ IH
                 |w cx cy b r _ IH|w sm g _ IH _|w checked _ IH].
  - apply shaped_World_new.
  - unfold reset.
    spawn_frame.
    destruct IH. constructor; simpl; try done; rewrite length_replicate; done.
  - unfold setAntCount.
    destruct (_ >? _)%Z.
    + spawn_frame.
      by apply shaped_set_ants.
    + destruct (_ <? _)%Z; simpl; [by apply shaped_set_ants | done].
  - unfold addFood. destruct (list_find _ _) as [[i f]|]; destruct IH; by constructor.
  - destruct (setWall_frame vp w cx cy b r) as (o & -> & Ho).
    destruct IH. constructor; simpl; congruence.
  - unfold tick.
    pose proof (shaped_stepAnts vp M w sm g IH) as Hs.
    destruct (stepAnts vp M w sm g) as [w1 g1]. simpl in *.
    apply shaped_diffuseAndEvaporate in Hs. destruct Hs. by constructor.
  - destruct IH. by constructor.
Qed.

(** ** Field bounds *)

Lemma inBounds_0 : inBounds 0.
Proof. unfold inBounds, PHEROMONE_MAX. lra. Qed.

Lemma readF_inBounds (field : list Q) i : Forall inBounds field -> inBounds (readF field i).
Proof.
  intros H. unfold readF, aget. destruct (i <? 0)%Z; [apply inBounds_0|].
  destruct (field !! Z.to_nat i) as [v|] eqn:E; simpl; [|apply inBounds_0].
  eapply Forall_lookup_1; eauto.
Qed.

(** The write of the deposit (line 280) stays within the bounds. *)
Lemma deposit_inBounds a v :
  inBounds v -> inBounds (Qmin PHEROMONE_MAX (v + depositRateOf a)).
Proof.
  unfold inBounds, depositRateOf, PHEROMONE_MAX, PHEROMONE_DEPOSIT_FOOD, PHEROMONE_DEPOSIT_HOME.
  intros [H0 H5].
  destruct (hasFood a);
    match goal with |- context [Qmin ?x ?y] =>
      destruct (Q.min_spec x y) as [[? E] | [? E]]; rewrite E end; lra.
Qed.

(** The value the advance writes for a cell (line 187) stays within them. *)
Lemma diffuseCell_inBounds vp w h srcF x y :
  Forall inBounds srcF -> inBounds (diffuseCell vp w h srcF x y).
Proof.
  intros H. unfold diffuseCell.
  set (yTop := if (y >? 0)%Z then _ else _). set (yBot := if (y <? h - 1)%Z then _ else _).
  set (xL := if (x >? 0)%Z then _ else _). set (xR := if (x <? w - 1)%Z then _ else _).
  pose proof (readF_inBounds srcF (indexOf vp x y) H) as Hc.
  pose proof (readF_inBounds srcF (indexOf vp x yTop) H) as Hn.
  pose proof (readF_inBounds srcF (indexOf vp x yBot) H) as Hs.
  pose proof (readF_inBounds srcF (indexOf vp xR y) H) as He.
  pose proof (readF_inBounds srcF (indexOf vp xL y) H) as Hw.
  pose proof (readF_inBounds srcF (indexOf vp xR yTop) H) as Hne.
  pose proof (readF_inBounds srcF (indexOf vp xL yTop) H) as Hnw.
  pose proof (readF_inBounds srcF (indexOf vp xR yBot) H) as Hse.
  pose proof (readF_inBounds srcF (indexOf vp xL yBot) H) as Hsw.
  unfold inBounds, PHEROMONE_MAX, DIFFUSION_WEIGHT, EVAPORATION in *.
  match goal with |- context [Qmax ?a ?b] =>
    destruct (Q.max_spec a b) as [[? E] | [? E]]; rewrite E end; lra.
Qed.

Lemma diffuseInto_inBounds vp w h srcF dstF :
  Forall inBounds srcF -> Forall inBounds dstF ->
  Forall inBounds (diffuseInto vp w h srcF dstF).
Proof.
  intros Hsrc. unfold diffuseInto.
  apply (fold_left_preserves _ (Forall inBounds)). intros dst y _.
  apply (fold_left_preserves _ (Forall inBounds)). intros dst' x _ Hd.
  apply Forall_aset; [done | by apply diffuseCell_inBounds].
Qed.

Lemma typedArraySet_inBounds target source :
  Forall inBounds target -> Forall inBounds source ->
  Forall inBounds (typedArraySet target source).
Proof.
  intros Ht Hs. unfold typedArraySet. apply Forall_app. split; [done|].
  by apply Forall_drop.
Qed.

Lemma fieldBounded_depositAndInteract vp M w a a0 :
  fieldBounded w -> fieldBounded (depositAndInteract vp M w a (depositRateOf a0)).1.
Proof.
  intros [Hf Ht]. unfold depositAndInteract.
  set (ix := clampZ _ _ _). set (iy := clampZ _ _ _).
  assert (Hdep : Forall inBounds
            (aset (toFood w) (indexOf vp ix iy)
               (Qmin PHEROMONE_MAX (readF (toFood w) (indexOf vp ix iy) + depositRateOf a0)))).
  { apply Forall_aset; [done|]. apply deposit_inBounds. by apply readF_inBounds. }
  destruct (hasFood a); simpl.
  - destruct (distanceCells_le _ _ _ _ _); by split.
  - unfold pickUpFoodAt. destruct (pickUpFrom _ _ _) as [piles [|]]; by split.
Qed.

Lemma fieldBounded_stepAnts vp M w sm g :
  fieldBounded w -> fieldBounded (stepAnts vp M w sm g).1.
Proof.
  intros Hw. unfold stepAnts.
  apply (fold_left_preserves (stepAnt vp M sm) (fun st => fieldBounded st.1)); [|done].
  intros [w1 g1] i _ H1. simpl in H1.
  destruct (stepAnt_cases vp M sm w1 g1 i) as [[_ ->] | (a & _ & ->)]; [done|].
  rewrite step_unfold. simpl.
  by apply (fieldBounded_depositAndInteract vp M w1 _ a).
Qed.

Lemma fieldBounded_diffuseAndEvaporate vp w :
  fieldBounded w -> fieldBounded (diffuseAndEvaporate vp w).
Proof.
  intros [Hf Ht]. unfold diffuseAndEvaporate. split; simpl.
  - apply typedArraySet_inBounds; [done|]. by apply diffuseInto_inBounds.
  - by apply diffuseInto_inBounds.
Qed.

Lemma Forall_replicate_0 n : Forall inBounds (replicate n 0).
Proof. apply Forall_replicate. apply inBounds_0. Qed.

Lemma reachable_fieldBounded vp M w : reachable vp M w -> fieldBounded w.
Proof.
  induction 1 as [|w n g _ IH _|w n g _ IH _|w cx cy amt _ IH
                 |w cx cy b r _ IH|w sm g _ IH _|w checked _ IH].
  - split; apply Forall_replicate_0.
  - unfold reset.
    spawn_frame.
    destruct IH. split; simpl; [apply Forall_replicate_0 | done].
  - unfold setAntCount.
    destruct (_ >? _)%Z.
    + spawn_frame.
      done.
    + by destruct (_ <? _)%Z.
  - unfold addFood. by destruct (list_find _ _) as [[i f]|].
  - by destruct (setWall_frame vp w cx cy b r) as (o & -> & Ho).
  - unfold tick.
    pose proof (fieldBounded_stepAnts vp M w sm g IH) as Hs.
    destruct (stepAnts vp M w sm g) as [w1 g1]. simpl in *.
    by apply (fieldBounded_diffuseAndEvaporate vp) in Hs.
  - exact IH.
Qed.

(** ** Concrete inputs are reachable *)

Lemma validRng_halfRng : validRng halfRng.
Proof. intros n. unfold halfRng. split; lra. Qed.

Lemma reachable_tickedWorld : reachable phone eastMath tickedWorld.
Proof.
  unfold tickedWorld.
  apply reach_tick; [|apply validRng_halfRng].
  apply reach_reset; [|apply validRng_halfRng].
  apply reach_new.
Qed.

(** * The claims *)

(** C1. In every reachable world, every cell of the scent field holds a value
    between 0 and PHEROMONE_MAX: no sequence of resets, edits, ticks (with
    their deposits) and field advances takes a cell below 0 or above the
    maximum strength. *)
Theorem C1_field_bounds vp M w :
  reachable vp M w ->
  Forall (fun v => 0 <= v /\ v <= PHEROMONE_MAX) (toFood w).
Proof. intros H. by destruct (reachable_fieldBounded vp M w H). Qed.

Lemma C1_field_bounds_witness :
  Forall (fun v => 0 <= v /\ v <= PHEROMONE_MAX) (toFood tickedWorld).
Proof. apply (C1_field_bounds phone eastMath). apply reachable_tickedWorld. Defined.

(** C10. The field advance changes nothing but the scent field (and its
    scratch buffer): the obstacle mask, the food piles, the ants (position,
    heading and carrying flag of each), the nest, the score and the tick
    counter are the same before and after the call. *)
Theorem C10_advance_frame vp w :
  obstacles (diffuseAndEvaporate vp w) = obstacles w
  /\ foodPiles (diffuseAndEvaporate vp w) = foodPiles w
  /\ ants (diffuseAndEvaporate vp w) = ants w
  /\ nest (diffuseAndEvaporate vp w) = nest w
  /\ score (diffuseAndEvaporate vp w) = score w
  /\ ticks (diffuseAndEvaporate vp w) = ticks w
  /\ gridWidth (diffuseAndEvaporate vp w) = gridWidth w
  /\ gridHeight (diffuseAndEvaporate vp w) = gridHeight w
  /\ flags (diffuseAndEvaporate vp w) = flags w.
Proof. unfold diffuseAndEvaporate. simpl. repeat split. Qed.

(** C5. On an empty food store, addFood(cellA, 3) followed by
    addFood(cellB, 2) with distance(cellA, cellB) <= FOOD_RADIUS_CELLS + 1
    leaves exactly one pile, at cellA, with amount 5. *)
Theorem C5_addFood_merges w ax ay bx by_ :
  foodPiles w = [] ->
  distanceCells_le ax ay bx by_ (FOOD_RADIUS_CELLS + 1) = true ->
  foodPiles (addFood (addFood w ax ay 3) bx by_ 2) = [mkPile ax ay 5].
Proof.
  intros Hempty Hnear. unfold addFood at 2. rewrite Hempty. simpl.
  unfold addFood. simpl.
  destruct (decide (mergeable bx by_ (mkPile ax ay 3))) as [_|Hn]; [reflexivity|].
  exfalso. apply Hn. unfold mergeable. simpl. rewrite Hnear. exact I.
Qed.

Lemma C5_addFood_merges_witness :
  foodPiles (addFood (addFood (World_new phone) 10 10 3) 12 12 2) = [mkPile 10 10 5].
Proof. apply C5_addFood_merges; reflexivity. Defined.

(** ** The collision check and the move *)

Lemma handleCollisions_spec vp w a nx ny g :
  handleCollisions vp w a nx ny g
  = (set_angle a (reflectedHeading vp w (angle a) nx ny (g O)),
     outside (Qfloor nx) (gridWidth w) || outside (Qfloor ny) (gridHeight w)
     || blockedAt vp w nx ny,
     if blockedAt vp w nx ny then snd (Math_random g) else g).
Proof.
  destruct a as [x y th hf wg].
  unfold handleCollisions, reflectedHeading, blockedAt, outside, set_angle. simpl.
  destruct (_ || _)%Z; destruct (_ || _)%Z; simpl;
    destruct (isWallAt _ _); simpl; reflexivity.
Qed.

Lemma turnAndMove_spec vp M w a sm g :
  let tg := decideTurn M w a (sense vp M w a) g in
  let h := turnedHeading vp M w a g in
  let '(nx, ny) := candidate vp M w a sm g in
  let b := bounces vp M w a sm g in
  turnAndMove vp M w a (fst tg) sm (snd tg)
  = (mkAnt (if b then ant_x a else nx) (if b then ant_y a else ny)
           (reflectedHeading vp w h nx ny (snd tg O)) (hasFood a) (wiggle a),
     b, (nx, ny),
     if blockedAt vp w nx ny then snd (Math_random (snd tg)) else snd tg).
Proof.
  unfold bounces, candidate, turnedHeading, stepLength, turnAndMove.
  rewrite handleCollisions_spec. unfold set_pos, set_angle. destruct a as [x y th hf wg]. simpl.
  destruct (_ || _ || _); reflexivity.
Qed.

Lemma movedAnt_spec vp M w a sm g :
  movedAnt vp M w a sm g
  = mkAnt (if bounces vp M w a sm g then ant_x a else fst (candidate vp M w a sm g))
          (if bounces vp M w a sm g then ant_y a else snd (candidate vp M w a sm g))
          (reflectedHeading vp w (turnedHeading vp M w a g)
             (fst (candidate vp M w a sm g)) (snd (candidate vp M w a sm g))
             (snd (decideTurn M w a (sense vp M w a) g) O))
          (hasFood a) (wiggle a).
Proof.
  unfold movedAnt, bounces, candidate, turnedHeading, stepLength, turnAndMove.
  rewrite handleCollisions_spec. unfold set_pos, set_angle.
  destruct a as [x y th hf wg]. simpl.
  destruct (_ || _ || _); reflexivity.
Qed.

(** ** Ants stay on the grid *)

Lemma outside_false c size : outside c size = false -> (0 <= c < size)%Z.
Proof. unfold outside. lia. Qed.

Lemma clampZ_id c size : (0 <= c < size)%Z -> clampZ c 0 (size - 1) = c.
Proof. unfold clampZ. lia. Qed.

Lemma movedAnt_onGrid vp M w a sm g : onGrid w a -> onGrid w (movedAnt vp M w a sm g).
Proof.
  intros Ha. rewrite movedAnt_spec. unfold bounces.
  destruct (candidate vp M w a sm g) as [nx ny].
  unfold onGrid, cellX, cellY. simpl.
  destruct (_ || _ || _) eqn:Hb; [exact Ha|].
  apply orb_false_elim in Hb as [Hb _]. apply orb_false_elim in Hb as [Hx Hy].
  split; by apply outside_false.
Qed.

(** ** State changes of one step *)

Lemma movedAnt_hasFood vp M w a sm g : hasFood (movedAnt vp M w a sm g) = hasFood a.
Proof. by rewrite movedAnt_spec. Qed.

Lemma depositAndInteract_state vp M w a rate :
  let ix := clampZ (cellX a) 0 (gridWidth w - 1) in
  let iy := clampZ (cellY a) 0 (gridHeight w - 1) in
  hasFood (depositAndInteract vp M w a rate).2
  = (if hasFood a then negb (atNest w ix iy) else (pickUpFoodAt w ix iy).2)
  /\ score (depositAndInteract vp M w a rate).1
     = (if hasFood a && atNest w ix iy then score w + 1 else score w)%Z
  /\ ant_x (depositAndInteract vp M w a rate).2 = ant_x a
  /\ ant_y (depositAndInteract vp M w a rate).2 = ant_y a.
Proof.
  destruct a as [x y th hf wg]. unfold depositAndInteract, atNest, cellX, cellY. simpl.
  set (ix := clampZ _ _ _). set (iy := clampZ _ _ _).
  destruct hf; simpl.
  - destruct (distanceCells_le _ _ _ _ _); simpl; done.
  - unfold pickUpFoodAt. destruct (pickUpFrom _ _ _) as [piles [|]]; simpl; done.
Qed.

Lemma step_state vp M w a sm g :
  let m := movedAnt vp M w a sm g in
  let ix := clampZ (cellX m) 0 (gridWidth w - 1) in
  let iy := clampZ (cellY m) 0 (gridHeight w - 1) in
  hasFood (step vp M w a sm g).1.2
  = (if hasFood a then negb (atNest w ix iy) else (pickUpFoodAt w ix iy).2)
  /\ score (step vp M w a sm g).1.1
     = (if hasFood a && atNest w ix iy then score w + 1 else score w)%Z
  /\ ant_x (step vp M w a sm g).1.2 = ant_x m
  /\ ant_y (step vp M w a sm g).1.2 = ant_y m.
Proof.
  rewrite step_unfold. simpl.
  pose proof (depositAndInteract_state vp M w (movedAnt vp M w a sm g) (depositRateOf a)) as H.
  simpl in H. by rewrite !movedAnt_hasFood in H.
Qed.

Lemma step_onGrid vp M w a sm g : onGrid w a -> onGrid w (step vp M w a sm g).1.2.
Proof.
  intros Ha. pose proof (movedAnt_onGrid vp M w a sm g Ha) as Hm.
  destruct (step_state vp M w a sm g) as (_ & _ & Hx & Hy).
  unfold onGrid, cellX, cellY in *. by rewrite Hx, Hy.
Qed.

Lemma score_step_le vp M w a sm g : (score w <= score (step vp M w a sm g).1.1)%Z.
Proof.
  destruct (step_state vp M w a sm g) as (_ & -> & _).
  destruct (_ && _); lia.
Qed.

Lemma score_stepAnts_le vp M w sm g : (score w <= score (stepAnts vp M w sm g).1)%Z.
Proof.
  unfold stepAnts.
  apply (fold_left_preserves (stepAnt vp M sm) (fun st => (score w <= score st.1)%Z));
    [|simpl; lia].
  intros [w1 g1] i _ H1. simpl in H1.
  destruct (stepAnt_cases vp M sm w1 g1 i) as [[_ ->] | (a & _ & ->)]; [done|].
  simpl. pose proof (score_step_le vp M w1 a sm g1). lia.
Qed.

(** A pickup succeeds exactly when some pile with a positive amount lies
    within [FOOD_RADIUS_CELLS] of the cell. *)
Lemma pickUpFrom_ok piles cx cy :
  (pickUpFrom piles cx cy).2 = true
  <-> exists f, f ∈ piles
        /\ distanceCells_le (pile_x f) (pile_y f) cx cy FOOD_RADIUS_CELLS = true
        /\ (0 < amount f)%Z.
Proof.
  induction piles as [|f rest IH]; simpl.
  - split; [done|]. intros (f & Hf & _). by apply elem_of_nil in Hf.
  - destruct (distanceCells_le (pile_x f) (pile_y f) cx cy FOOD_RADIUS_CELLS
              && (amount f >? 0)%Z) eqn:E.
    + simpl. split; [intros _ | done]. apply andb_true_iff in E as [E1 E2].
      exists f. split; [by left|]. split; [done | lia].
    + destruct (pickUpFrom rest cx cy) as [rest' ok]. simpl in *. rewrite IH.
      split.
      * intros (f' & Hin & H1 & H2). exists f'. split; [by right | done].
      * intros (f' & Hin & H1 & H2). apply elem_of_cons in Hin as [-> | Hin].
        -- rewrite H1 in E. simpl in E. lia.
        -- by exists f'.
Qed.

(** ** Spawning near the nest *)

Lemma Qfloor_near (n : Z) (r : Q) :
  0 <= r -> r < 1 -> (n - 1 <= Qfloor (inject_Z n + r - (1 # 2)) <= n)%Z.
Proof.
  intros H0 H1. set (x := inject_Z n + r - (1 # 2)).
  assert (Hlo : inject_Z (n - 1) <= x).
  { unfold x. replace (n - 1)%Z with (n + -1)%Z by lia.
    rewrite inject_Z_plus. change (inject_Z (-1)) with (-1 # 1). lra. }
  assert (Hhi : x < inject_Z (n + 1)).
  { unfold x. rewrite inject_Z_plus. change (inject_Z 1) with 1. lra. }
  split.
  - apply Qfloor_resp_le in Hlo. by rewrite Qfloor_Z in Hlo.
  - pose proof (Qfloor_le x) as Hf.
    assert (Hlt : inject_Z (Qfloor x) < inject_Z (n + 1)) by lra.
    rewrite <- Zlt_Qlt in Hlt. lia.
Qed.

Lemma onGrid_ext w w' a :
  gridWidth w' = gridWidth w -> gridHeight w' = gridHeight w -> onGrid w a -> onGrid w' a.
Proof. unfold onGrid. intros -> ->. done. Qed.

Lemma validRng_tail g : validRng g -> validRng (snd (Math_random g)).
Proof. intros H n. apply H. Qed.

Lemma spawnAnts_onGrid vp n : forall w g,
  shaped vp w -> validRng g -> antsOnGrid w -> antsOnGrid (spawnAnts n w g).1.
Proof.
  induction n as [|n IH]; intros w g Hs Hg Hw; simpl; [done|].
  apply IH.
  - by apply shaped_set_ants.
  - intros k. apply Hg.
  - unfold antsOnGrid. simpl. apply Forall_app. split; [exact Hw|].
    apply Forall_singleton. unfold onGrid, cellX, cellY. simpl.
    destruct Hs as [Hgw Hgh Hnest _ _ _]. rewrite Hnest, Hgw, Hgh. simpl.
    pose proof (GRID_WIDTH_range vp). pose proof (GRID_HEIGHT_range vp).
    destruct (Hg 0%nat) as [Hx0 Hx1]. destruct (Hg 1%nat) as [Hy0 Hy1].
    pose proof (Qfloor_near (GRID_WIDTH vp / 2) (g 0%nat) Hx0 Hx1).
    pose proof (Qfloor_near (GRID_HEIGHT vp / 2) (g 1%nat) Hy0 Hy1).
    assert (1 <= GRID_WIDTH vp / 2 < GRID_WIDTH vp)%Z
      by (split; [apply Z.div_le_lower_bound | apply Z.div_lt_upper_bound]; lia).
    assert (1 <= GRID_HEIGHT vp / 2 < GRID_HEIGHT vp)%Z
      by (split; [apply Z.div_le_lower_bound | apply Z.div_lt_upper_bound]; lia).
    lia.
Qed.

Lemma antsOnGrid_stepAnts vp M w sm g :
  antsOnGrid w -> antsOnGrid (stepAnts vp M w sm g).1.
Proof.
  intros Hw. unfold stepAnts.
  apply (fold_left_preserves (stepAnt vp M sm) (fun st => antsOnGrid st.1)); [|done].
  intros [w1 g1] i _ H1. simpl in H1.
  destruct (stepAnt_cases vp M sm w1 g1 i) as [[_ ->] | (a & Ha & ->)]; [done|].
  pose proof (step_onGrid vp M w1 a sm g1 (Forall_lookup_1 _ _ _ _ H1 Ha)) as Ha'.
  destruct (step_frame vp M w1 a sm g1) as (f & p & s & E & _).
  unfold antsOnGrid in *. simpl. rewrite E in *. simpl.
  apply Forall_insert.
  - eapply Forall_impl; [exact H1|]. intros a0. by apply onGrid_ext.
  - revert Ha'. by apply onGrid_ext.
Qed.

Lemma reachable_antsOnGrid vp M w : reachable vp M w -> antsOnGrid w.
Proof.
  induction 1 as [|w n g Hr IH Hg|w n g Hr IH Hg|w cx cy amt _ IH
                 |w cx cy b r _ IH|w sm g _ IH _|w checked _ IH].
  - constructor.
  - apply reachable_shaped in Hr. unfold reset.
    apply (spawnAnts_onGrid vp); [|done|constructor].
    destruct Hr. constructor; simpl; try done; by rewrite length_replicate.
  - apply reachable_shaped in Hr. unfold setAntCount.
    destruct (_ >? _)%Z; [by apply (spawnAnts_onGrid vp)|].
    destruct (_ <? _)%Z; simpl; [|done]. by apply Forall_take.
  - unfold addFood. by destruct (list_find _ _) as [[i f]|].
  - by destruct (setWall_frame vp w cx cy b r) as (o & -> & Ho).
  - unfold tick.
    pose proof (antsOnGrid_stepAnts vp M w sm g IH) as Hs.
    destruct (stepAnts vp M w sm g) as [w1 g1]. exact Hs.
  - exact IH.
Qed.

Lemma score_spawnAnts n w g : score (spawnAnts n w g).1 = score w.
Proof. by destruct (spawnAnts_frame n w g) as [l ->]. Qed.

Lemma score_tick_le vp M w sm g : (score w <= score (tick vp M w sm g).1)%Z.
Proof.
  unfold tick. pose proof (score_stepAnts_le vp M w sm g) as H.
  by destruct (stepAnts vp M w sm g) as [w1 g1].
Qed.

(** C2. An ant is SEARCHING (not carrying) or RETURNING (carrying) and one
    step moves it between the two states as follows: a SEARCHING ant becomes
    RETURNING exactly when the pickup at its current cell succeeds; a
    RETURNING ant becomes SEARCHING exactly when its current cell is within
    NEST_RADIUS_CELLS of the nest, and exactly then the score grows by 1;
    otherwise state and score are unchanged.  A tick never lowers the score,
    the edits (addFood, setWall, setAntCount) keep it, and only reset sets
    it back to 0. *)
Theorem C2_state_machine :
  (forall vp M w a sm g,
     onGrid w a ->
     let w' := (step vp M w a sm g).1.1 in
     let a' := (step vp M w a sm g).1.2 in
     onGrid w a'
     /\ stateOf a'
        = match stateOf a with
          | SEARCHING =>
              if (pickUpFoodAt w (cellX a') (cellY a')).2 then RETURNING else SEARCHING
          | RETURNING =>
              if atNest w (cellX a') (cellY a') then SEARCHING else RETURNING
          end
     /\ score w'
        = match stateOf a with
          | SEARCHING => score w
          | RETURNING => if atNest w (cellX a') (cellY a') then (score w + 1)%Z else score w
          end)
  /\ (forall vp M w sm g, (score w <= score (tick vp M w sm g).1)%Z)
  /\ (forall w cx cy amt, score (addFood w cx cy amt) = score w)
  /\ (forall vp w cx cy b r, score (setWall vp w cx cy b r) = score w)
  /\ (forall w n g, score (setAntCount w n g).1 = score w)
  /\ (forall w n g, score (reset w n g).1 = 0%Z).
Proof.
  split; [|split; [|split; [|split; [|split]]]].
  - intros vp M w a sm g Ha. cbv zeta.
    pose proof (step_onGrid vp M w a sm g Ha) as Ha'.
    destruct (step_state vp M w a sm g) as (Hf & Hs & Hx & Hy).
    pose proof (movedAnt_onGrid vp M w a sm g Ha) as [Hmx Hmy].
    rewrite (clampZ_id _ _ Hmx), (clampZ_id _ _ Hmy) in Hf, Hs.
    assert (Ecx : cellX (step vp M w a sm g).1.2 = cellX (movedAnt vp M w a sm g))
      by (unfold cellX; by rewrite Hx).
    assert (Ecy : cellY (step vp M w a sm g).1.2 = cellY (movedAnt vp M w a sm g))
      by (unfold cellY; by rewrite Hy).
    rewrite Ecx, Ecy. split; [exact Ha'|].
    unfold stateOf. rewrite Hf, Hs.
    destruct (hasFood a); simpl.
    + by destruct (atNest w _ _).
    + by destruct (pickUpFoodAt w _ _).2.
  - intros. apply score_tick_le.
  - intros. unfold addFood. by destruct (list_find _ _) as [[i f]|].
  - intros. by destruct (setWall_frame vp w cx cy b r) as (o & -> & _).
  - intros. unfold setAntCount. destruct (_ >? _)%Z; [apply score_spawnAnts|].
    by destruct (_ <? _)%Z.
  - intros. unfold reset. by rewrite score_spawnAnts.
Qed.

Lemma C2_state_machine_witness :
  onGrid pileWorld forager
  /\ stateOf (step phone eastMath pileWorld forager 1 halfRng).1.2 = RETURNING
  /\ onGrid (World_new phone) carrier
  /\ stateOf (step phone eastMath (World_new phone) carrier 1 halfRng).1.2 = SEARCHING
  /\ score (step phone eastMath (World_new phone) carrier 1 halfRng).1.1 = 1%Z.
Proof.
  assert (H1 : onGrid pileWorld forager) by (vm_compute; repeat split; discriminate).
  assert (H2 : onGrid (World_new phone) carrier) by (vm_compute; repeat split; discriminate).
  destruct (proj1 C2_state_machine phone eastMath pileWorld forager 1 halfRng H1)
    as (_ & E1 & _).
  destruct (proj1 C2_state_machine phone eastMath (World_new phone) carrier 1 halfRng H2)
    as (_ & E2 & E3).
  split; [exact H1|]. split; [rewrite E1; vm_compute; reflexivity|].
  split; [exact H2|]. split; [rewrite E2; vm_compute; reflexivity|].
  rewrite E3. vm_compute. reflexivity.
Defined.

(** C7. In every reachable world every ant's cell (the floor of its
    position) is a cell of the grid, [0, W-1] x [0, H-1]: ants are spawned
    next to the nest, and a step never takes the candidate position when its
    cell is off the grid, it keeps the old position. *)
Theorem C7_collision_containment vp M w :
  reachable vp M w ->
  Forall (fun a => (0 <= Qfloor (ant_x a) <= gridWidth w - 1)%Z
                   /\ (0 <= Qfloor (ant_y a) <= gridHeight w - 1)%Z) (ants w)
  /\ forall a sm g,
       outside (Qfloor (candidate vp M w a sm g).1) (gridWidth w)
       || outside (Qfloor (candidate vp M w a sm g).2) (gridHeight w) = true ->
       ant_x (step vp M w a sm g).1.2 = ant_x a
       /\ ant_y (step vp M w a sm g).1.2 = ant_y a.
Proof.
  intros Hr. split.
  - apply reachable_antsOnGrid in Hr. eapply Forall_impl; [exact Hr|].
    intros a [Hx Hy]. unfold cellX, cellY in *. lia.
  - intros a sm g Hout.
    destruct (step_state vp M w a sm g) as (_ & _ & -> & ->).
    rewrite movedAnt_spec. simpl. unfold bounces.
    destruct (candidate vp M w a sm g) as [nx ny]. simpl in Hout. by rewrite Hout.
Qed.

Lemma C7_collision_containment_witness :
  Forall (fun a => (0 <= Qfloor (ant_x a) <= gridWidth tickedWorld - 1)%Z
                   /\ (0 <= Qfloor (ant_y a) <= gridHeight tickedWorld - 1)%Z)
         (ants tickedWorld)
  /\ ant_x (step phone eastMath tickedWorld edgeAnt 1 halfRng).1.2 = ant_x edgeAnt.
Proof.
  assert (Hout : outside (Qfloor (candidate phone eastMath tickedWorld edgeAnt 1 halfRng).1)
                    (gridWidth tickedWorld)
                  || outside (Qfloor (candidate phone eastMath tickedWorld edgeAnt 1 halfRng).2)
                       (gridHeight tickedWorld) = true)
    by (vm_compute; reflexivity).
  exact (conj (proj1 (C7_collision_containment phone eastMath tickedWorld
                        reachable_tickedWorld))
              (proj1 (proj2 (C7_collision_containment phone eastMath tickedWorld
                               reachable_tickedWorld) edgeAnt 1 halfRng Hout))).
Defined.

(** C6. In one step of an ant, a reflection is triggered when the candidate
    cell is outside the grid on X, outside it on Y, or (once clamped to the
    grid) an obstacle.  If any reflection is triggered the ant keeps its
    position and only its heading changes: pi minus the heading for X, the
    negated heading for Y, and for an obstacle a rotation by pi/2 plus a
    random perturbation (the draw minus one half); otherwise the position
    becomes the candidate position and the heading is the turned one. *)
Theorem C6_reflection_blocks_move vp M w a sm g :
  let a' := (step vp M w a sm g).1.2 in
  let h := turnedHeading vp M w a g in
  let nx := (candidate vp M w a sm g).1 in
  let ny := (candidate vp M w a sm g).2 in
  let xOut := outside (Qfloor nx) (gridWidth w) in
  let yOut := outside (Qfloor ny) (gridHeight w) in
  let wall := blockedAt vp w nx ny in
  let r := (decideTurn M w a (sense vp M w a) g).2 O in
  (ant_x a', ant_y a') = (if xOut || yOut || wall then (ant_x a, ant_y a) else (nx, ny))
  /\ angle (movedAnt vp M w a sm g)
     = (let h1 := if xOut then Math_PI - h else h in
        let h2 := if yOut then - h1 else h1 in
        if wall then wrapAngle (h2 + Math_PI / 2 + (r - (1 # 2))) else h2).
Proof.
  cbv zeta.
  destruct (step_state vp M w a sm g) as (_ & _ & -> & ->).
  rewrite movedAnt_spec. unfold bounces, reflectedHeading, candidate. simpl.
  split; [|reflexivity]. by destruct (_ || _ || _).
Qed.

(** ** The no-build zone around the nest *)

Lemma stepAnts_frame vp M w sm g :
  exists f p a s,
    (stepAnts vp M w sm g).1
    = mkWorld (gridWidth w) (gridHeight w) f (obstacles w) p a (nest w) s
              (ticks w) (tempToFood w) (flags w).
Proof.
  unfold stepAnts.
  apply (fold_left_preserves (stepAnt vp M sm)
           (fun st => exists f p a s,
              st.1 = mkWorld (gridWidth w) (gridHeight w) f (obstacles w) p a (nest w) s
                             (ticks w) (tempToFood w) (flags w))).
  - intros [w1 g1] i _ (f & p & a & s & E). simpl in E.
    destruct (stepAnt_cases vp M sm w1 g1 i) as [[_ ->] | (a1 & _ & ->)];
      [by exists f, p, a, s|].
    destruct (step_frame vp M w1 a1 sm g1) as (f' & p' & s' & -> & _).
    subst w1. simpl. by do 4 eexists.
  - simpl. exists (toFood w), (foodPiles w), (ants w), (score w). by destruct w.
Qed.

Lemma setWallCell_nest_frame vp cx cy b r w x y x0 y0 :
  shaped vp w ->
  (0 <= x0 < gridWidth w)%Z -> (0 <= y0 < gridHeight w)%Z -> atNest w x0 y0 = true ->
  aget (obstacles (setWallCell vp cx cy b r w x y)) (indexOf vp x0 y0)
  = aget (obstacles w) (indexOf vp x0 y0).
Proof.
  intros Hs Hx0 Hy0 Hn. unfold setWallCell.
  destruct (_ || _ || _ || _)%Z eqn:Hout; [done|].
  destruct (distanceCells_le x y _ _ _) eqn:Hnear; [done|].
  destruct (distanceCells_le x y cx cy r); [|done]. simpl.
  destruct Hs as [Hgw Hgh _ _ _ _]. rewrite Hgw, Hgh in *.
  apply aget_aset_ne.
  - pose proof (indexOf_in_range vp x0 y0 Hx0 Hy0). lia.
  - intros E. apply indexOf_inj in E as [-> ->]; [|lia|lia].
    unfold atNest in Hn. congruence.
Qed.

Lemma setWall_nest_frame vp w cx cy b r x0 y0 :
  shaped vp w ->
  (0 <= x0 < gridWidth w)%Z -> (0 <= y0 < gridHeight w)%Z -> atNest w x0 y0 = true ->
  aget (obstacles (setWall vp w cx cy b r)) (indexOf vp x0 y0)
  = aget (obstacles w) (indexOf vp x0 y0).
Proof.
  intros Hs Hx0 Hy0 Hn. unfold setWall.
  set (P := fun w' : World =>
              shaped vp w' /\ gridWidth w' = gridWidth w /\ gridHeight w' = gridHeight w
              /\ nest w' = nest w
              /\ aget (obstacles w') (indexOf vp x0 y0) = aget (obstacles w) (indexOf vp x0 y0)).
  assert (Hcell : forall w' x y, P w' -> P (setWallCell vp cx cy b r w' x y)).
  { intros w' x y (Hs' & Egw & Egh & En & Eo).
    assert (Hfr : aget (obstacles (setWallCell vp cx cy b r w' x y)) (indexOf vp x0 y0)
                  = aget (obstacles w') (indexOf vp x0 y0)).
    { apply setWallCell_nest_frame; try done; try congruence.
      unfold atNest in *. by rewrite En. }
    destruct (setWallCell_frame vp cx cy b r w' x y) as (o & E & Ho).
    rewrite E in *. simpl in *.
    split; [destruct Hs'; constructor; simpl; congruence|].
    repeat split; simpl; congruence. }
  assert (HP : P (fold_left
                    (fun w y => fold_left (fun w x => setWallCell vp cx cy b r w x y)
                                  (zrange (cx - r) (cx + r)) w)
                    (zrange (cy - r) (cy + r)) w)).
  { apply (fold_left_preserves _ P); [|unfold P; by split_and!].
    intros w' y _ Hw'. apply (fold_left_preserves _ P); [|done].
    intros w'' x _. apply Hcell. }
  by destruct HP as (_ & _ & _ & _ & ->).
Qed.

Lemma isWallAt_replicate n i : isWallAt (replicate n 0%Z) i = false.
Proof.
  unfold isWallAt, aget. destruct (i <? 0)%Z; [done|].
  destruct (replicate n 0%Z !! Z.to_nat i) as [v|] eqn:E; [|done].
  apply lookup_replicate in E as [-> _]. done.
Qed.

Lemma reachable_nestClear vp M w : reachable vp M w -> nestClear vp w.
Proof.
  induction 1 as [|w n g Hr IH Hg|w n g Hr IH Hg|w cx cy amt _ IH
                 |w cx cy b r Hr IH|w sm g _ IH _|w checked _ IH].
  - intros x y _ _ _. apply isWallAt_replicate.
  - unfold reset.
    spawn_frame.
    intros x y _ _ _. simpl. apply isWallAt_replicate.
  - unfold setAntCount.
    destruct (_ >? _)%Z.
    + spawn_frame.
      exact IH.
    + by destruct (_ <? _)%Z.
  - unfold addFood. by destruct (list_find _ _) as [[i f]|].
  - apply reachable_shaped in Hr.
    pose proof (setWall_nest_frame vp w cx cy b r) as Hfr.
    destruct (setWall_frame vp w cx cy b r) as (o & E & Ho). rewrite E in *.
    intros x y Hx Hy Hn. simpl in *. unfold isWallAt.
    rewrite (Hfr x y Hr Hx Hy Hn). by apply IH.
  - unfold tick.
    destruct (stepAnts_frame vp M w sm g) as (f & p & a & s & E).
    destruct (stepAnts vp M w sm g) as [w1 g1]. simpl in E. subst w1. exact IH.
  - exact IH.
Qed.

(** C8. Whatever the centre, the radius and the blocked flag, setWall leaves
    the obstacle flag of every cell within NEST_RADIUS_CELLS of the nest as
    it was, and in every reachable world (so after any sequence of wall
    edits) no such cell is blocked. *)
Theorem C8_no_build_zone vp M w :
  reachable vp M w ->
  (forall x y,
     (0 <= x < gridWidth w)%Z -> (0 <= y < gridHeight w)%Z -> atNest w x y = true ->
     isWallAt (obstacles w) (indexOf vp x y) = false)
  /\ (forall cx cy b r x y,
        (0 <= x < gridWidth w)%Z -> (0 <= y < gridHeight w)%Z -> atNest w x y = true ->
        aget (obstacles (setWall vp w cx cy b r)) (indexOf vp x y)
        = aget (obstacles w) (indexOf vp x y)).
Proof.
  intros Hr. split.
  - exact (reachable_nestClear vp M w Hr).
  - intros. apply setWall_nest_frame; try done. by apply (reachable_shaped vp M).
Qed.

Lemma reachable_walledWorld : reachable phone eastMath walledWorld.
Proof. apply reach_setWall. apply reach_new. Qed.

Lemma C8_no_build_zone_witness :
  isWallAt (obstacles walledWorld) (indexOf phone 20 20) = false
  /\ isWallAt (obstacles walledWorld) (indexOf phone 23 20) = false.
Proof.
  destruct (C8_no_build_zone phone eastMath walledWorld reachable_walledWorld) as [H _].
  split; apply H; vm_compute; try reflexivity; repeat split; discriminate.
Defined.

(** Outside the zone the same edit does build: the cell four to the east of
    the nest is blocked. *)
Example walledWorld_blocks_outside :
  isWallAt (obstacles walledWorld) (indexOf phone 24 20) = true.
Proof. vm_compute. reflexivity. Qed.

(** ** wrapAngle *)

Lemma Qltb_true a b : Qltb a b = true <-> a < b.
Proof.
  unfold Qltb. rewrite negb_true_iff. split.
  - intros H. apply Qnot_le_lt. intros Hle. apply Qle_bool_iff in Hle. congruence.
  - intros H. destruct (Qle_bool b a) eqn:E; [|done].
    apply Qle_bool_iff in E. lra.
Qed.

Lemma Qltb_false a b : Qltb a b = false <-> b <= a.
Proof.
  unfold Qltb. rewrite negb_false_iff. apply Qle_bool_iff.
Qed.

Lemma Math_PI_pos : 0 < Math_PI.
Proof. reflexivity. Qed.

Lemma inject_nat_S (k : nat) : inject_Z (Z.of_nat (S k)) == inject_Z (Z.of_nat k) + 1.
Proof. rewrite Nat2Z.inj_succ, <- Z.add_1_r, inject_Z_plus. reflexivity. Qed.

Lemma wrapUp_spec fuel : forall a,
  (exists k : Z, wrapUp fuel a == a + inject_Z k * (Math_PI * 2))
  /\ (- Math_PI <= a + inject_Z (Z.of_nat fuel) * (Math_PI * 2) -> - Math_PI <= wrapUp fuel a)
  /\ (a <= Math_PI -> wrapUp fuel a <= Math_PI).
Proof.
  pose proof Math_PI_pos as Hpi.
  induction fuel as [|fuel IH]; intros a.
  - simpl. split; [exists 0%Z; change (inject_Z 0) with 0; lra|].
    split; [change (inject_Z (Z.of_nat 0)) with 0; lra | done].
  - cbn [wrapUp]. destruct (Qltb a (- Math_PI)) eqn:E.
    + apply Qltb_true in E.
      destruct (IH (a + Math_PI * 2)) as ([k Hk] & Hlo & Hhi).
      split; [|split].
      * exists (k + 1)%Z. rewrite inject_Z_plus. change (inject_Z 1) with 1. lra.
      * intros H. apply Hlo. rewrite inject_nat_S in H. lra.
      * intros _. apply Hhi. lra.
    + apply Qltb_false in E. split; [exists 0%Z; change (inject_Z 0) with 0; lra|].
      split; [intros _; lra | done].
Qed.

Lemma wrapDown_spec fuel : forall a,
  (exists k : Z, wrapDown fuel a == a + inject_Z k * (Math_PI * 2))
  /\ (a - inject_Z (Z.of_nat fuel) * (Math_PI * 2) <= Math_PI -> wrapDown fuel a <= Math_PI)
  /\ (- Math_PI <= a -> - Math_PI <= wrapDown fuel a).
Proof.
  pose proof Math_PI_pos as Hpi.
  induction fuel as [|fuel IH]; intros a.
  - simpl. split; [exists 0%Z; change (inject_Z 0) with 0; lra|].
    split; [change (inject_Z (Z.of_nat 0)) with 0; lra | done].
  - cbn [wrapDown]. destruct (Qltb Math_PI a) eqn:E.
    + apply Qltb_true in E.
      destruct (IH (a - Math_PI * 2)) as ([k Hk] & Hhi & Hlo).
      split; [|split].
      * exists (k - 1)%Z. replace (k - 1)%Z with (k + -1)%Z by lia.
        rewrite inject_Z_plus. change (inject_Z (-1)) with (-1 # 1). lra.
      * intros H. apply Hhi. rewrite inject_nat_S in H. lra.
      * intros _. apply Hlo. lra.
    + apply Qltb_false in E. split; [exists 0%Z; change (inject_Z 0) with 0; lra|].
      split; [intros _; lra | done].
Qed.

(** [wrapFuel] turns are enough to cover the magnitude of the angle. *)
Lemma wrapFuel_covers a : Qabs a <= inject_Z (Z.of_nat (wrapFuel a)) * (Math_PI * 2).
Proof.
  pose proof Math_PI_pos as Hpi. unfold wrapFuel.
  set (q := Qabs a / (Math_PI * 2)).
  assert (Hq : 0 <= q).
  { unfold q. apply Qle_shift_div_l; [lra|]. pose proof (Qabs_nonneg a). lra. }
  pose proof (Qle_ceiling q) as Hc.
  assert (Hz : (0 <= Qceiling q)%Z).
  { apply Qceiling_resp_le in Hq. exact Hq. }
  rewrite Z2Nat.id by exact Hz.
  assert (Ha : Qabs a == q * (Math_PI * 2)) by (unfold q; field; lra).
  rewrite Ha. apply Qmult_le_compat_r; lra.
Qed.

(** The loops of [wrapAngle] end, on an angle of [[-PI, PI]] that differs
    from the argument by whole turns. *)
Lemma wrapAngle_spec a :
  (exists k : Z, wrapAngle a == a + inject_Z k * (Math_PI * 2))
  /\ - Math_PI <= wrapAngle a /\ wrapAngle a <= Math_PI.
Proof.
  pose proof Math_PI_pos as Hpi. unfold wrapAngle.
  set (a1 := wrapUp (wrapFuel a) a).
  destruct (wrapUp_spec (wrapFuel a) a) as ([k1 Hk1] & Hlo1 & _).
  destruct (wrapDown_spec (wrapFuel a1) a1) as ([k2 Hk2] & Hhi2 & Hlo2).
  fold a1 in Hk1, Hlo1.
  assert (H1 : - Math_PI <= a1).
  { apply Hlo1. pose proof (wrapFuel_covers a). pose proof (Qle_Qabs (- a)).
    rewrite Qabs_opp in *. lra. }
  split; [|split].
  - exists (k1 + k2)%Z. rewrite inject_Z_plus. lra.
  - by apply Hlo2.
  - apply Hhi2. pose proof (wrapFuel_covers a1). pose proof (Qle_Qabs a1). lra.
Qed.

(** More turns of fuel than needed change nothing: the loops have ended. *)
Lemma wrapUp_enough fuel : forall k a,
  - Math_PI <= a + inject_Z (Z.of_nat fuel) * (Math_PI * 2) ->
  wrapUp (fuel + k) a = wrapUp fuel a.
Proof.
  pose proof Math_PI_pos as Hpi.
  induction fuel as [|fuel IH]; intros k a H.
  - change (inject_Z (Z.of_nat 0)) with 0 in H.
    destruct k as [|k]; [done|]. cbn [Nat.add wrapUp].
    destruct (Qltb a (- Math_PI)) eqn:E; [|done]. apply Qltb_true in E. lra.
  - cbn [Nat.add wrapUp]. destruct (Qltb a (- Math_PI)); [|done].
    apply IH. rewrite inject_nat_S in H. lra.
Qed.

Lemma wrapDown_enough fuel : forall k a,
  a - inject_Z (Z.of_nat fuel) * (Math_PI * 2) <= Math_PI ->
  wrapDown (fuel + k) a = wrapDown fuel a.
Proof.
  pose proof Math_PI_pos as Hpi.
  induction fuel as [|fuel IH]; intros k a H.
  - change (inject_Z (Z.of_nat 0)) with 0 in H.
    destruct k as [|k]; [done|]. cbn [Nat.add wrapDown].
    destruct (Qltb Math_PI a) eqn:E; [|done]. apply Qltb_true in E. lra.
  - cbn [Nat.add wrapDown]. destruct (Qltb Math_PI a); [|done].
    apply IH. rewrite inject_nat_S in H. lra.
Qed.

(** An angle already in range is returned as it is. *)
Lemma wrapAngle_in_range a : - Math_PI <= a -> a <= Math_PI -> wrapAngle a = a.
Proof.
  intros Hlo Hhi. unfold wrapAngle.
  assert (Hup : forall f, wrapUp f a = a).
  { intros [|f]; [done|]. cbn [wrapUp].
    destruct (Qltb a (- Math_PI)) eqn:E; [|done]. apply Qltb_true in E. lra. }
  rewrite Hup. destruct (wrapFuel a) as [|f]; [done|]. cbn [wrapDown].
  destruct (Qltb Math_PI a) eqn:E; [|done]. apply Qltb_true in E. lra.
Qed.

(** ** The turn decision *)

Lemma clamp_range v lo hi : lo <= hi -> lo <= clamp v lo hi /\ clamp v lo hi <= hi.
Proof.
  intros H. unfold clamp.
  destruct (Q.min_spec hi v) as [[? E1] | [? E1]];
    destruct (Q.max_spec lo (Qmin hi v)) as [[? E2] | [? E2]]; lra.
Qed.

Lemma ANT_TURN_ANGLE_pos : 0 < ANT_TURN_ANGLE.
Proof. reflexivity. Qed.

Lemma no_signal_below_threshold :
  Qle_bool SCENT_THRESHOLD
    (Qmax (forward noSignal) (Qmax (left noSignal) (right noSignal))) = false.
Proof. reflexivity. Qed.

(** The value of [clamp], case by case. *)
Lemma clamp_cases v lo hi :
  lo <= hi ->
  (lo <= v -> v <= hi -> clamp v lo hi == v)
  /\ (hi < v -> clamp v lo hi == hi)
  /\ (v < lo -> clamp v lo hi == lo).
Proof.
  intros H. unfold clamp.
  destruct (Q.min_spec hi v) as [[? E1] | [? E1]];
    destruct (Q.max_spec lo (Qmin hi v)) as [[? E2] | [? E2]];
    split_and!; intros; lra.
Qed.

(** The value of [wrapAngle] on an angle less than one turn out of range. *)
Lemma wrapAngle_cases d :
  (- Math_PI <= d -> d <= Math_PI -> wrapAngle d == d)
  /\ (Math_PI < d -> d < 3 * Math_PI -> wrapAngle d == d - Math_PI * 2)
  /\ (d < - Math_PI -> - (3 * Math_PI) < d -> wrapAngle d == d + Math_PI * 2).
Proof.
  pose proof Math_PI_pos as Hpi.
  destruct (wrapAngle_spec d) as ([k Hk] & Hlo & Hhi).
  set (P2 := Math_PI * 2) in *.
  assert (HP2 : P2 == Math_PI * 2) by reflexivity.
  split_and!.
  - intros H1 H2. by rewrite wrapAngle_in_range.
  - intros H1 H2.
    assert (Ek : k = (-1)%Z).
    { destruct (Z_lt_le_dec k (-1)) as [Hlt|Hge].
      - assert (Hq : inject_Z k <= inject_Z (-2)) by (rewrite <- Zle_Qle; lia).
        assert (inject_Z k * P2 <= inject_Z (-2) * P2)
          by (apply Qmult_le_compat_r; lra).
        change (inject_Z (-2)) with (-2 # 1) in *. lra.
      - destruct (Z_lt_le_dec k 0) as [Hlt|Hge0]; [lia|].
        assert (Hq : inject_Z 0 <= inject_Z k) by (rewrite <- Zle_Qle; lia).
        assert (inject_Z 0 * P2 <= inject_Z k * P2)
          by (apply Qmult_le_compat_r; lra).
        change (inject_Z 0) with 0 in *. lra. }
    subst k. change (inject_Z (-1)) with (-1 # 1) in Hk. lra.
  - intros H1 H2.
    assert (Ek : k = 1%Z).
    { destruct (Z_lt_le_dec 1 k) as [Hlt|Hge].
      - assert (Hq : inject_Z 2 <= inject_Z k) by (rewrite <- Zle_Qle; lia).
        assert (inject_Z 2 * P2 <= inject_Z k * P2)
          by (apply Qmult_le_compat_r; lra).
        change (inject_Z 2) with 2 in *. lra.
      - destruct (Z_lt_le_dec 0 k) as [Hlt|Hge0]; [lia|].
        assert (Hq : inject_Z k <= inject_Z 0) by (rewrite <- Zle_Qle; lia).
        assert (inject_Z k * P2 <= inject_Z 0 * P2)
          by (apply Qmult_le_compat_r; lra).
        change (inject_Z 0) with 0 in *. lra. }
    subst k. change (inject_Z 1) with 1 in Hk. lra.
Qed.

(** C9. For a RETURNING (carrying) ant the turn of the tick is the signed
    angular difference between its heading and the bearing straight to the
    nest (the difference brought into [-PI, PI] by whole turns), clamped to
    +-ANT_TURN_ANGLE: the difference itself when that lies within
    +-ANT_TURN_ANGLE, and the nearer of the two bounds when it does not.
    The ant senses nothing, so the scent-based left/right bias is never
    applied and no random draw is made. *)
Theorem C9_returning_turn vp M w a g :
  hasFood a = true ->
  let d := homeAngle M w a - angle a in
  let delta := wrapAngle d in
  let turn := (decideTurn M w a (sense vp M w a) g).1 in
  sense vp M w a = noSignal
  /\ decideTurn M w a (sense vp M w a) g
     = (clamp delta (- ANT_TURN_ANGLE) ANT_TURN_ANGLE, g)
  /\ (exists k : Z, delta == d + inject_Z k * (Math_PI * 2))
  /\ - Math_PI <= delta /\ delta <= Math_PI
  /\ - ANT_TURN_ANGLE <= turn /\ turn <= ANT_TURN_ANGLE
  /\ (- ANT_TURN_ANGLE <= delta -> delta <= ANT_TURN_ANGLE -> turn == delta)
  /\ (ANT_TURN_ANGLE < delta -> turn == ANT_TURN_ANGLE)
  /\ (delta < - ANT_TURN_ANGLE -> turn == - ANT_TURN_ANGLE)
  /\ (- Math_PI <= d -> d <= Math_PI -> delta == d)
  /\ (Math_PI < d -> d < 3 * Math_PI -> delta == d - Math_PI * 2)
  /\ (d < - Math_PI -> - (3 * Math_PI) < d -> delta == d + Math_PI * 2)
  /\ (decideTurn M w a (sense vp M w a) g).2 = g.
Proof.
  intros Hf. cbv zeta.
  assert (Hs : sense vp M w a = noSignal) by (unfold sense; by rewrite Hf).
  assert (Hd : decideTurn M w a (sense vp M w a) g
               = (clamp (wrapAngle (homeAngle M w a - angle a))
                        (- ANT_TURN_ANGLE) ANT_TURN_ANGLE, g)).
  { rewrite Hs. unfold decideTurn. rewrite Hf, no_signal_below_threshold. reflexivity. }
  destruct (wrapAngle_spec (homeAngle M w a - angle a)) as (Hk & Hlo & Hhi).
  destruct (wrapAngle_cases (homeAngle M w a - angle a)) as (W1 & W2 & W3).
  pose proof ANT_TURN_ANGLE_pos as HA.
  destruct (clamp_range (wrapAngle (homeAngle M w a - angle a))
              (- ANT_TURN_ANGLE) ANT_TURN_ANGLE) as [Hc1 Hc2]; [lra|].
  destruct (clamp_cases (wrapAngle (homeAngle M w a - angle a))
              (- ANT_TURN_ANGLE) ANT_TURN_ANGLE) as (K1 & K2 & K3); [lra|].
  rewrite Hd. cbn [fst snd]. split_and!; done.
Qed.

Lemma C9_returning_turn_witness :
  (decideTurn compassMath (World_new phone) wrapCarrier
     (sense phone compassMath (World_new phone) wrapCarrier) halfRng).1
  == 3 - Math_PI
  /\ (decideTurn compassMath (World_new phone) carrier
        (sense phone compassMath (World_new phone) carrier) halfRng).1
     == ANT_TURN_ANGLE.
Proof.
  destruct (C9_returning_turn phone compassMath (World_new phone) wrapCarrier halfRng
              eq_refl) as (_ & _ & _ & _ & _ & _ & _ & Hin & _ & _ & _ & Hwrap & _).
  destruct (C9_returning_turn phone compassMath (World_new phone) carrier halfRng
              eq_refl) as (_ & _ & _ & _ & _ & _ & _ & _ & Hout & _).
  cbv zeta in Hin, Hwrap, Hout.
  assert (Hd : homeAngle compassMath (World_new phone) wrapCarrier - angle wrapCarrier
               == Math_PI + 3) by (vm_compute; reflexivity).
  assert (H1 : Math_PI < homeAngle compassMath (World_new phone) wrapCarrier
                         - angle wrapCarrier) by (vm_compute; reflexivity).
  assert (H2 : homeAngle compassMath (World_new phone) wrapCarrier - angle wrapCarrier
               < 3 * Math_PI) by (vm_compute; reflexivity).
  assert (H3 : - ANT_TURN_ANGLE
               <= wrapAngle (homeAngle compassMath (World_new phone) wrapCarrier
                             - angle wrapCarrier)) by (vm_compute; discriminate).
  assert (H4 : wrapAngle (homeAngle compassMath (World_new phone) wrapCarrier
                          - angle wrapCarrier) <= ANT_TURN_ANGLE)
    by (vm_compute; discriminate).
  assert (H5 : ANT_TURN_ANGLE
               < wrapAngle (homeAngle compassMath (World_new phone) carrier - angle carrier))
    by (vm_compute; reflexivity).
  split; [|exact (Hout H5)].
  rewrite (Hin H3 H4), (Hwrap H1 H2), Hd. ring.
Defined.

Lemma decideTurn_searching M w a s g :
  hasFood a = false ->
  (signalStrength s < SCENT_THRESHOLD ->
     decideTurn M w a s g = (wanderTurn (g O), snd (Math_random g)))
  /\ (SCENT_THRESHOLD <= signalStrength s -> left s <= forward s -> right s <= forward s ->
       decideTurn M w a s g = (0, g))
  /\ (SCENT_THRESHOLD <= signalStrength s ->
       ~ (left s <= forward s /\ right s <= forward s) -> right s < left s ->
       decideTurn M w a s g = (SENSOR_ANGLE, g))
  /\ (SCENT_THRESHOLD <= signalStrength s ->
       ~ (left s <= forward s /\ right s <= forward s) -> left s < right s ->
       decideTurn M w a s g = (- SENSOR_ANGLE, g))
  /\ (SCENT_THRESHOLD <= signalStrength s -> forward s < left s -> left s == right s ->
       decideTurn M w a s g = (wanderTurn (g O), snd (Math_random g))).
Proof.
  intros Hf. unfold decideTurn, signalStrength, wanderTurn. rewrite Hf.
  set (m := Qmax (forward s) (Qmax (left s) (right s))).
  destruct (Qle_bool SCENT_THRESHOLD m) eqn:Et.
  - apply Qle_bool_iff in Et.
    destruct (Qle_bool (left s) (forward s)) eqn:E1;
      destruct (Qle_bool (right s) (forward s)) eqn:E2; simpl;
      destruct (Qltb (right s) (left s)) eqn:E3;
      destruct (Qltb (left s) (right s)) eqn:E4;
      try apply Qle_bool_iff in E1; try apply Qle_bool_iff in E2;
      try apply Qltb_true in E3; try apply Qltb_true in E4;
      try apply Qltb_false in E3; try apply Qltb_false in E4;
      try (assert (~ left s <= forward s)
             by (intros Hc; apply Qle_bool_iff in Hc; congruence));
      try (assert (~ right s <= forward s)
             by (intros Hc; apply Qle_bool_iff in Hc; congruence));
      repeat split; intros; try reflexivity; try lra; tauto.
  - assert (Hlt : m < SCENT_THRESHOLD).
    { apply Qnot_le_lt. intros Hc. apply Qle_bool_iff in Hc. congruence. }
    repeat split; intros; try reflexivity; lra.
Qed.

Lemma wanderTurn_range d :
  0 <= d -> d < 1 ->
  - (ANT_TURN_ANGLE / 2) <= wanderTurn d /\ wanderTurn d < ANT_TURN_ANGLE / 2.
Proof.
  intros H0 H1. unfold wanderTurn. pose proof ANT_TURN_ANGLE_pos as HA.
  set (A := ANT_TURN_ANGLE) in *.
  assert (E : A / 2 == A * (1 # 2)) by field.
  assert (P1 : 0 <= d * A) by (apply Qmult_le_0_compat; lra).
  assert (P2 : 0 < (1 - d) * A) by (apply Qmult_lt_0_compat; lra).
  split; lra.
Qed.

Lemma wanderTurn_onto t :
  - (ANT_TURN_ANGLE / 2) <= t -> t < ANT_TURN_ANGLE / 2 ->
  exists d, 0 <= d /\ d < 1 /\ wanderTurn d == t.
Proof.
  intros H1 H2. exists (t / ANT_TURN_ANGLE + (1 # 2)).
  pose proof ANT_TURN_ANGLE_pos as HA. unfold wanderTurn.
  set (A := ANT_TURN_ANGLE) in *.
  assert (E : A / 2 == A * (1 # 2)) by field.
  assert (Et : t / A * A == t) by (field; lra).
  repeat split.
  - assert (- (1 # 2) <= t / A); [|lra]. apply Qle_shift_div_l; [exact HA|]. lra.
  - assert (t / A < 1 # 2); [|lra]. apply Qlt_shift_div_r; [exact HA|]. lra.
  - lra.
Qed.

(** C3 (as amended). For a SEARCHING ant: if the strongest of the three
    sensed values is below SCENT_THRESHOLD the turn is the wander turn,
    (draw - 1/2) * ANT_TURN_ANGLE, which ranges over the whole of
    +-ANT_TURN_ANGLE/2 as the draw ranges over [0, 1); otherwise the turn is 0
    if forward is a tied-or-greater maximum, else +SENSOR_ANGLE if left
    strictly exceeds right, else -SENSOR_ANGLE if right strictly exceeds
    left, else (left equals right, both above forward) the same wander turn,
    in +-ANT_TURN_ANGLE/2. *)
Theorem C3_searching_turn M w a s g :
  hasFood a = false ->
  let turn := (decideTurn M w a s g).1 in
  (signalStrength s < SCENT_THRESHOLD -> turn = wanderTurn (g O))
  /\ (SCENT_THRESHOLD <= signalStrength s -> left s <= forward s -> right s <= forward s ->
       turn = 0)
  /\ (SCENT_THRESHOLD <= signalStrength s ->
       ~ (left s <= forward s /\ right s <= forward s) -> right s < left s ->
       turn = SENSOR_ANGLE)
  /\ (SCENT_THRESHOLD <= signalStrength s ->
       ~ (left s <= forward s /\ right s <= forward s) -> left s < right s ->
       turn = - SENSOR_ANGLE)
  /\ (SCENT_THRESHOLD <= signalStrength s -> forward s < left s -> left s == right s ->
       turn = wanderTurn (g O))
  /\ (0 <= g O -> g O < 1 ->
       - (ANT_TURN_ANGLE / 2) <= wanderTurn (g O) /\ wanderTurn (g O) < ANT_TURN_ANGLE / 2)
  /\ (forall t, - (ANT_TURN_ANGLE / 2) <= t -> t < ANT_TURN_ANGLE / 2 ->
       exists d, 0 <= d /\ d < 1 /\ wanderTurn d == t).
Proof.
  intros Hf. cbv zeta.
  destruct (decideTurn_searching M w a s g Hf) as (H1 & H2 & H3 & H4 & H5).
  split; [intros; by rewrite H1|].
  split; [intros; by rewrite H2|].
  split; [intros; by rewrite H3|].
  split; [intros; by rewrite H4|].
  split; [intros; by rewrite H5|].
  split; [apply wanderTurn_range | apply wanderTurn_onto].
Qed.

Lemma C3_searching_turn_witness :
  hasFood forager = false
  /\ (decideTurn eastMath (World_new phone) forager tieSensed halfRng).1
     = wanderTurn (halfRng O).
Proof.
  destruct (C3_searching_turn eastMath (World_new phone) forager tieSensed halfRng eq_refl)
    as (_ & _ & _ & _ & Htie & _).
  split; [reflexivity|]. apply Htie.
  - vm_compute. discriminate.
  - reflexivity.
  - reflexivity.
Defined.

(** The claim as written gives the tie case (left equals right, both above
    forward) a random angle in +-ANT_TURN_ANGLE.  The code does not: three
    quarters of ANT_TURN_ANGLE lies in that range, and no draw of [0, 1)
    produces it. *)
Lemma C3_tie_range_counterexample :
  SCENT_THRESHOLD <= signalStrength tieSensed
  /\ forward tieSensed < left tieSensed /\ left tieSensed == right tieSensed
  /\ - ANT_TURN_ANGLE <= (3 # 4) * ANT_TURN_ANGLE <= ANT_TURN_ANGLE
  /\ ~ exists g : Rng,
        (0 <= g O /\ g O < 1)
        /\ (decideTurn eastMath (World_new phone) forager tieSensed g).1
           == (3 # 4) * ANT_TURN_ANGLE.
Proof.
  assert (Ht : SCENT_THRESHOLD <= signalStrength tieSensed) by (vm_compute; discriminate).
  assert (Hfl : forward tieSensed < left tieSensed) by reflexivity.
  assert (Hlr : left tieSensed == right tieSensed) by reflexivity.
  split; [exact Ht|]. split; [exact Hfl|]. split; [exact Hlr|].
  split; [split; vm_compute; discriminate|].
  intros (g & [H0 H1] & E).
  destruct (decideTurn_searching eastMath (World_new phone) forager tieSensed g eq_refl)
    as (_ & _ & _ & _ & H5).
  rewrite (H5 Ht Hfl Hlr) in E. cbn [fst] in E.
  destruct (wanderTurn_range (g O) H0 H1) as [_ Hhi].
  pose proof ANT_TURN_ANGLE_pos as HA.
  set (A := ANT_TURN_ANGLE) in *. set (t := wanderTurn (g O)) in *.
  assert (Eh : A / 2 == A * (1 # 2)) by field.
  lra.
Qed.

(** ** What the advance writes *)

Lemma fold_left_fmap {A B C} (G : A -> C -> A) (f : B -> C) (l : list B) (a : A) :
  fold_left G (map f l) a = fold_left (fun a b => G a (f b)) l a.
Proof. revert a. induction l as [|b l IH]; intros a; simpl; [done | apply IH]. Qed.

(** Two nested loops are one loop over the pairs, rows first. *)
Lemma fold_left_nested {A X Y} (G : A -> X * Y -> A) (xs : list X) (ys : list Y) (a : A) :
  fold_left (fun a y => fold_left (fun a x => G a (x, y)) xs a) ys a
  = fold_left G (flat_map (fun y => map (fun x => (x, y)) xs) ys) a.
Proof.
  revert a. induction ys as [|y ys IH]; intros a; simpl; [done|].
  rewrite fold_left_app, fold_left_fmap. apply IH.
Qed.

(** A loop of array writes: the last write to an index is what is read
    there, when all the writes to it carry the same value. *)
Lemma fold_aset_lookup {A K} (key : K -> Z) (val : K -> A) (ks : list K) :
  forall (dst : list A) (k : K),
    k ∈ ks ->
    (forall k', k' ∈ ks -> key k' = key k -> val k' = val k) ->
    (0 <= key k < Z.of_nat (length dst))%Z ->
    aget (fold_left (fun d k' => aset d (key k') (val k')) ks dst) (key k) = Some (val k).
Proof.
  induction ks as [|k0 ks IH] using rev_ind; intros dst k Hin Hval Hrange.
  - by apply elem_of_nil in Hin.
  - rewrite fold_left_app. simpl.
    destruct (Z.eq_dec (key k0) (key k)) as [E|E].
    + rewrite E, aget_aset_eq.
      * f_equal. apply Hval; [|done]. apply elem_of_app. right. by left.
      * assert (Hlen : forall l (d : list A),
                  length (fold_left (fun d k' => aset d (key k') (val k')) l d) = length d).
        { clear. induction l as [|x l IHl]; intros d; simpl; [done|].
          rewrite IHl. apply length_aset. }
        by rewrite Hlen.
    + rewrite aget_aset_ne; [|lia|done].
      apply IH; [|by intros k' Hk'; apply Hval, elem_of_app; left|done].
      apply elem_of_app in Hin as [Hin|Hin]; [done|].
      apply list_elem_of_singleton in Hin. congruence.
Qed.

Lemma diffuseInto_lookup vp h srcF dstF x y :
  (0 <= x < GRID_WIDTH vp)%Z -> (0 <= y < h)%Z ->
  length dstF = Z.to_nat (GRID_WIDTH vp * h) ->
  aget (diffuseInto vp (GRID_WIDTH vp) h srcF dstF) (indexOf vp x y)
  = Some (diffuseCell vp (GRID_WIDTH vp) h srcF x y).
Proof.
  intros Hx Hy Hlen. unfold diffuseInto.
  rewrite (fold_left_nested
             (fun dst p => aset dst (indexOf vp p.1 p.2)
                             (diffuseCell vp (GRID_WIDTH vp) h srcF p.1 p.2))).
  apply (fold_aset_lookup (fun p : Z * Z => indexOf vp p.1 p.2)
           (fun p => diffuseCell vp (GRID_WIDTH vp) h srcF p.1 p.2) _ dstF (x, y)).
  - apply list_elem_of_In, in_flat_map. exists y. split.
    + apply list_elem_of_In, elem_of_zrange. lia.
    + apply in_map_iff. exists x. split; [done|].
      apply list_elem_of_In, elem_of_zrange. lia.
  - intros [x' y'] Hin E. simpl in *.
    apply list_elem_of_In, in_flat_map in Hin as (y0 & _ & Hin).
    apply in_map_iff in Hin as (x0 & Heq & Hx0). injection Heq as -> ->.
    apply list_elem_of_In, elem_of_zrange in Hx0.
    apply indexOf_inj in E as [-> ->]; [done|lia|lia].
  - simpl. rewrite Hlen. unfold indexOf. nia.
Qed.

(** After an advance, the scent at a cell of the grid is the value computed
    for that cell from the field before it. *)
Lemma scentAt_diffuseAndEvaporate vp w x y :
  shaped vp w -> (0 <= x < gridWidth w)%Z -> (0 <= y < gridHeight w)%Z ->
  scentAt vp (diffuseAndEvaporate vp w) x y
  = diffuseCell vp (gridWidth w) (gridHeight w) (toFood w) x y.
Proof.
  intros [Hgw Hgh _ Hf Ht _] Hx Hy. unfold scentAt, diffuseAndEvaporate. simpl.
  rewrite typedArraySet_same_length by (rewrite length_diffuseInto; congruence).
  unfold readF. rewrite Hgw, Hgh in *. by rewrite diffuseInto_lookup.
Qed.

(** With no diffusion, the value computed for a cell is its own value after
    evaporation. *)
Lemma diffuseCell_evaporates vp w h srcF x y :
  0 <= readF srcF (indexOf vp x y) ->
  diffuseCell vp w h srcF x y == readF srcF (indexOf vp x y) * (1 - EVAPORATION).
Proof.
  intros Hc. unfold diffuseCell.
  match goal with |- Qmax 0 ?b == _ =>
    destruct (Q.max_spec 0 b) as [[H E] | [H E]]; rewrite E end;
    unfold DIFFUSION_WEIGHT, EVAPORATION in *; lra.
Qed.

Lemma shaped_advanceN vp n w : shaped vp w -> shaped vp (advanceN vp n w).
Proof.
  intros Hs. induction n as [|n IH]; simpl; [done|].
  by apply shaped_diffuseAndEvaporate.
Qed.

Lemma advanceN_dims vp n w :
  gridWidth (advanceN vp n w) = gridWidth w /\ gridHeight (advanceN vp n w) = gridHeight w.
Proof. induction n as [|n [IH1 IH2]]; simpl; [done|]. by rewrite <- IH1, <- IH2. Qed.

(** The scent at a cell after one more advance, absent deposits. *)
Lemma scentAt_advance_S vp n w x y :
  shaped vp w -> (0 <= x < gridWidth w)%Z -> (0 <= y < gridHeight w)%Z ->
  0 <= scentAt vp (advanceN vp n w) x y ->
  scentAt vp (advanceN vp (S n) w) x y
  == scentAt vp (advanceN vp n w) x y * (1 - EVAPORATION).
Proof.
  intros Hs Hx Hy Hv. destruct (advanceN_dims vp n w) as [E1 E2].
  change (advanceN vp (S n) w) with (diffuseAndEvaporate vp (advanceN vp n w)).
  rewrite scentAt_diffuseAndEvaporate; [|by apply shaped_advanceN|lia|lia].
  by apply diffuseCell_evaporates.
Qed.

Lemma scentAt_advanceN vp n w x y :
  shaped vp w -> (0 <= x < gridWidth w)%Z -> (0 <= y < gridHeight w)%Z ->
  0 <= scentAt vp w x y ->
  scentAt vp (advanceN vp n w) x y
  == scentAt vp w x y * (1 - EVAPORATION) ^ Z.of_nat n.
Proof.
  intros Hs Hx Hy Hv. induction n as [|n IH].
  - simpl. lra.
  - assert (Hn : 0 <= scentAt vp (advanceN vp n w) x y).
    { rewrite IH. apply Qmult_le_0_compat; [done|]. by apply Qpower_0_le. }
    rewrite scentAt_advance_S, IH by done.
    rewrite Nat2Z.inj_succ, <- Z.add_1_r, Qpower_plus by done.
    simpl. lra.
Qed.

Lemma reachable_trailWorld : reachable phone eastMath trailWorld.
Proof.
  unfold trailWorld. cbv zeta.
  apply reach_tick; [|apply validRng_halfRng].
  apply reach_tick; [|apply validRng_halfRng].
  apply reach_addFood.
  apply reach_reset; [|apply validRng_halfRng].
  apply reach_new.
Qed.

(** The trail of [trailWorld]: one deposit, evaporated once, and a score of 1. *)
Example trailWorld_scent :
  scentAt phone trailWorld 20 20 == PHEROMONE_DEPOSIT_FOOD * (1 - EVAPORATION)
  /\ score trailWorld = 1%Z.
Proof. vm_compute. split; reflexivity. Qed.

Lemma evaporation_factor : 0 < 1 - EVAPORATION /\ 1 - EVAPORATION < 1.
Proof. unfold EVAPORATION. split; lra. Qed.

Lemma scentAt_nonneg vp M w x y : reachable vp M w -> 0 <= scentAt vp w x y.
Proof.
  intros Hr. apply reachable_fieldBounded in Hr as [Hf _].
  by destruct (readF_inBounds (toFood w) (indexOf vp x y) Hf).
Qed.

(** One advance of the exact field never raises a cell. *)
Lemma scentAt_advance_le vp n w x y :
  shaped vp w -> (0 <= x < gridWidth w)%Z -> (0 <= y < gridHeight w)%Z ->
  0 <= scentAt vp w x y ->
  scentAt vp (advanceN vp (S n) w) x y <= scentAt vp (advanceN vp n w) x y.
Proof.
  intros Hs Hx Hy H0.
  assert (Hn : 0 <= scentAt vp (advanceN vp n w) x y).
  { rewrite scentAt_advanceN by done.
    apply Qmult_le_0_compat; [done|]. apply Qpower_0_le. unfold EVAPORATION. lra. }
  rewrite scentAt_advance_S by done.
  set (q := scentAt vp (advanceN vp n w) x y) in *. unfold EVAPORATION. lra.
Qed.

(** ** The same decay under IEEE rounding

    As the [Float32Array] stores it, the trail of one deposit is positive
    and never rises at any of its first [stallAfter] advances, and from then
    on it is stuck at [stall32]. *)
Lemma decays_spec k : forall c,
  decays k c = true ->
  forall n, (n < k)%nat ->
    SFltb (S754_zero false) (Nat.iter (S n) IEEE.advanceCell c) = true
    /\ SFleb (Nat.iter (S n) IEEE.advanceCell c) (Nat.iter n IEEE.advanceCell c) = true.
Proof.
  induction k as [|k IH]; intros c H n Hn; [lia|].
  cbn [decays] in H. apply andb_true_iff in H as [H H3].
  apply andb_true_iff in H as [H1 H2].
  destruct n as [|n]; [by split|].
  destruct (IH _ H3 n) as [I1 I2]; [lia|].
  rewrite <- (Nat.iter_succ_r (S n)) in I1, I2. rewrite <- (Nat.iter_succ_r n) in I2.
  by split.
Qed.

Lemma trail32_stalled n : (stallAfter <= n)%nat -> trail32 n = stall32.
Proof.
  intros H. replace n with ((n - stallAfter) + stallAfter)%nat by lia.
  induction (n - stallAfter)%nat as [|k IH].
  - vm_compute. reflexivity.
  - change (S k + stallAfter)%nat with (S (k + stallAfter)).
    change (trail32 (S (k + stallAfter)))
      with (IEEE.advanceCell (trail32 (k + stallAfter))).
    rewrite IH. vm_compute. reflexivity.
Qed.

Lemma trail32_decays n :
  SFltb (S754_zero false) (trail32 n) = true
  /\ SFleb (trail32 (S n)) (trail32 n) = true.
Proof.
  assert (Hk : decays stallAfter IEEE.deposit32 = true) by (vm_compute; reflexivity).
  destruct (Nat.lt_ge_cases n stallAfter) as [Hlt|Hge].
  - split; [|by apply (decays_spec stallAfter)].
    destruct n as [|n]; [vm_compute; reflexivity|].
    apply (decays_spec stallAfter IEEE.deposit32 Hk n). lia.
  - rewrite !trail32_stalled by lia. split; vm_compute; reflexivity.
Qed.




(** The smallest positive binary32 is a fixed point of the advance as well,
    and so is the value the trail of one deposit holds after 20000 advances. *)
Example float32_smallest_stalls : IEEE.advanceCell IEEE.smallest32 = IEEE.smallest32.
Proof. vm_compute. reflexivity. Qed.

Example float32_trail_stalls :
  let v := N.iter 20000 IEEE.advanceCell IEEE.deposit32 in
  v = S754_finite false 83 (-149) /\ IEEE.advanceCell v = v.
Proof. vm_compute. split; reflexivity. Qed.

(** The grids of the two example windows. *)
Example example_grids :
  (GRID_WIDTH desktop, GRID_HEIGHT desktop) = (233, 93)%Z
  /\ (GRID_WIDTH phone, GRID_HEIGHT phone) = (40, 40)%Z.
Proof. split; reflexivity. Qed.

(** ** The scenarios of the specification, run *)

(** Two cells further apart than FOOD_RADIUS_CELLS + 1 are not merged. *)
Example addFood_beyond_radius :
  foodPiles (addFood (addFood (World_new phone) 10 10 3) 14 10 2)
  = [mkPile 10 10 3; mkPile 14 10 2].
Proof. reflexivity. Qed.

(** An ant heading east one tenth of a cell from the right edge: after the
    step its position is unchanged and its heading is reflected from 0 to PI. *)
Example edge_reflection :
  let a' := (step phone eastMath (World_new phone) edgeAnt 1 halfRng).1.2 in
  bounces phone eastMath (World_new phone) edgeAnt 1 halfRng = true
  /\ ant_x a' = ant_x edgeAnt /\ ant_y a' = ant_y edgeAnt
  /\ angle edgeAnt == 0 /\ angle a' == Math_PI.
Proof. vm_compute. repeat split. Qed.

(** The forager picks a unit up: the pile of two is left with one. *)
Example forager_picks_up :
  foodPiles (step phone eastMath pileWorld forager 1 halfRng).1.1 = [mkPile 11 10 1].
Proof. vm_compute. reflexivity. Qed.

(** * Further properties of the engine *)

(** ** Utilities *)

(** X1. [indexOf] numbers the cells of the grid row by row without gaps or
    clashes: a cell of the grid gets an index of the array, two cells with
    the same index are the same cell, and every index of the array is the
    index of the cell (i mod W, i / W). *)
Theorem X1_indexOf_bijection vp :
  (forall x y, (0 <= x < GRID_WIDTH vp)%Z -> (0 <= y < GRID_HEIGHT vp)%Z ->
     (0 <= indexOf vp x y < GRID_WIDTH vp * GRID_HEIGHT vp)%Z)
  /\ (forall x y x' y',
        (0 <= x < GRID_WIDTH vp)%Z -> (0 <= x' < GRID_WIDTH vp)%Z ->
        indexOf vp x y = indexOf vp x' y' -> x = x' /\ y = y')
  /\ (forall i, (0 <= i < GRID_WIDTH vp * GRID_HEIGHT vp)%Z ->
        (0 <= i mod GRID_WIDTH vp < GRID_WIDTH vp)%Z
        /\ (0 <= i / GRID_WIDTH vp < GRID_HEIGHT vp)%Z
        /\ indexOf vp (i mod GRID_WIDTH vp) (i / GRID_WIDTH vp) = i).
Proof.
  pose proof (GRID_WIDTH_range vp) as Hw.
  split; [apply indexOf_in_range|]. split; [apply indexOf_inj|].
  intros i Hi. split; [apply Z.mod_pos_bound; lia|]. split.
  - split; [apply Z.div_pos; lia|]. apply Z.div_lt_upper_bound; lia.
  - unfold indexOf. rewrite (Z.div_mod i (GRID_WIDTH vp)) at 3 by lia. lia.
Qed.

Lemma X1_indexOf_bijection_witness :
  (0 <= indexOf phone 39 39 < GRID_WIDTH phone * GRID_HEIGHT phone)%Z
  /\ indexOf phone (1599 mod GRID_WIDTH phone) (1599 / GRID_WIDTH phone) = 1599%Z.
Proof.
  destruct (X1_indexOf_bijection phone) as (Hin & _ & Hsur).
  split.
  - apply Hin; vm_compute; split; (discriminate || reflexivity).
  - apply Hsur. vm_compute. split; (discriminate || reflexivity).
Defined.

(** X2. [computeCanvasSize] and the grid constants: the grid is between
    40 x 40 and 233 x 116 cells, its cells fit in the canvas and leave less
    than one cell uncovered; off mobile the canvas is 1400 x 560, on mobile
    it is a square of whole cells between 240 and 696 pixels. *)
Theorem X2_canvas_and_grid vp :
  let c := computeCanvasSize vp in
  (40 <= GRID_WIDTH vp <= 233)%Z /\ (40 <= GRID_HEIGHT vp <= 116)%Z
  /\ (GRID_WIDTH vp * CELL_SIZE <= width c < (GRID_WIDTH vp + 1) * CELL_SIZE)%Z
  /\ (GRID_HEIGHT vp * CELL_SIZE <= height c < (GRID_HEIGHT vp + 1) * CELL_SIZE)%Z
  /\ isMobile c = isMobileQuery vp
  /\ (if isMobileQuery vp
      then width c = height c /\ width c = (GRID_WIDTH vp * CELL_SIZE)%Z
           /\ (240 <= width c <= 696)%Z
      else width c = 1400%Z /\ height c = 560%Z).
Proof.
  cbv zeta. pose proof (GRID_WIDTH_range vp). pose proof (GRID_HEIGHT_range vp).
  do 2 (split; [done|]).
  unfold GRID_WIDTH, GRID_HEIGHT, computeCanvasSize, CELL_SIZE in *.
  destruct (isMobileQuery vp); simpl in *.
  - rewrite Z.div_mul in * by lia.
    set (cells := Z.max 40 (Z.max 240 (Z.min 700 (innerWidth vp - 32)) / 6)) in *.
    repeat split; lia.
  - change (1400 / 6)%Z with 233%Z. change (560 / 6)%Z with 93%Z. repeat split; lia.
Qed.

(** X3. [wrapAngle] normalises: its result lies in [-PI, PI], differs from
    the argument by a whole number of turns, and is left alone by a second
    call. *)
Theorem X3_wrapAngle_normalises a :
  - Math_PI <= wrapAngle a /\ wrapAngle a <= Math_PI
  /\ (exists k : Z, wrapAngle a == a + inject_Z k * (Math_PI * 2))
  /\ wrapAngle (wrapAngle a) = wrapAngle a.
Proof.
  destruct (wrapAngle_spec a) as (Hk & Hlo & Hhi).
  split; [done|]. split; [done|]. split; [done|]. by apply wrapAngle_in_range.
Qed.

(** ** Spawning, reset and population *)

Lemma randomBetween_range lo hi g :
  lo < hi -> validRng g ->
  lo <= (randomBetween lo hi g).1 /\ (randomBetween lo hi g).1 < hi
  /\ validRng (randomBetween lo hi g).2.
Proof.
  intros Hlh Hg. unfold randomBetween. simpl. destruct (Hg O) as [H0 H1].
  assert (P1 : 0 <= g O * (hi - lo)) by (apply Qmult_le_0_compat; lra).
  assert (P2 : 0 < (1 - g O) * (hi - lo)) by (apply Qmult_lt_0_compat; lra).
  split; [lra|]. split; [lra|]. intros n. apply Hg.
Qed.

Lemma spawnAtNest_spec x y g :
  validRng g ->
  let a := (spawnAtNest x y g).1 in
  ant_x a = x /\ ant_y a = y /\ hasFood a = false
  /\ - Math_PI <= angle a /\ angle a < Math_PI
  /\ - Math_PI <= wiggle a /\ wiggle a < Math_PI
  /\ angle a = - Math_PI + g O * (Math_PI - - Math_PI)
  /\ (forall n, (spawnAtNest x y g).2 n = g (S (S n))).
Proof.
  intros Hg. cbv zeta. pose proof Math_PI_pos as Hpi.
  assert (Hlh : - Math_PI < Math_PI) by lra.
  destruct (randomBetween_range (- Math_PI) Math_PI g Hlh Hg) as (A1 & A2 & Hg1).
  destruct (randomBetween_range (- Math_PI) Math_PI _ Hlh Hg1) as (W1 & W2 & _).
  unfold spawnAtNest, Ant_new, randomBetween, Math_random in *. simpl in *.
  repeat split; done.
Qed.

(** X4. [Ant.spawnAtNest(x, y)] returns a searching ant at exactly (x, y)
    whose heading and wiggle lie in [-PI, PI), and uses exactly two draws of
    the generator, the first for the heading. *)
Theorem X4_spawnAtNest x y g :
  validRng g ->
  let a := (spawnAtNest x y g).1 in
  ant_x a = x /\ ant_y a = y /\ hasFood a = false
  /\ - Math_PI <= angle a /\ angle a < Math_PI
  /\ - Math_PI <= wiggle a /\ wiggle a < Math_PI
  /\ angle a = - Math_PI + g O * (Math_PI - - Math_PI)
  /\ (forall n, (spawnAtNest x y g).2 n = g (S (S n))).
Proof. apply spawnAtNest_spec. Qed.

Lemma X4_spawnAtNest_witness :
  angle (spawnAtNest (20 # 1) (20 # 1) halfRng).1 = - Math_PI + (1 # 2) * (Math_PI - - Math_PI)
  /\ hasFood (spawnAtNest (20 # 1) (20 # 1) halfRng).1 = false.
Proof.
  destruct (X4_spawnAtNest (20 # 1) (20 # 1) halfRng validRng_halfRng)
    as (_ & _ & Hf & _ & _ & _ & _ & Ha & _).
  split; [exact Ha | exact Hf].
Defined.

Lemma spawnAnts_spec n : forall w g,
  validRng g ->
  exists l, (spawnAnts n w g).1 = set_ants w (ants w ++ l)
            /\ length l = n /\ Forall (freshAnt w) l
            /\ validRng (spawnAnts n w g).2.
Proof.
  induction n as [|n IH]; intros w g Hg.
  - exists []. simpl. rewrite app_nil_r.
    split; [by destruct w|]. split; [done|]. split; [constructor | done].
  - cbn [spawnAnts]. unfold Math_random. cbn [fst snd].
    set (g2 := fun n0 : nat => g (S (S n0))).
    assert (Hg2 : validRng g2) by (intros k; apply Hg).
    set (x := inject_Z (nest w).1 + g O - (1 # 2)).
    set (y := inject_Z (nest w).2 + g 1%nat - (1 # 2)).
    pose proof (spawnAtNest_spec x y g2 Hg2) as Hsp. cbv zeta in Hsp.
    destruct (spawnAtNest x y g2) as [a g3]. cbn [fst snd] in Hsp.
    destruct Hsp as (Hx & Hy & Hf & A1 & A2 & W1 & W2 & _ & Hg3).
    assert (Hv3 : validRng g3) by (intros k; rewrite Hg3; apply Hg2).
    destruct (IH (set_ants w (ants w ++ [a])) g3 Hv3) as (l & El & Hlen & Hall & Hv).
    exists (a :: l). rewrite El. simpl. rewrite <- app_assoc. simpl.
    split; [done|]. split; [by rewrite Hlen|]. split; [|done].
    constructor; [|exact Hall].
    destruct (Hg O) as [? ?]. destruct (Hg 1%nat) as [? ?].
    unfold freshAnt. rewrite Hx, Hy. unfold x, y. repeat split; try done; lra.
Qed.

(** X5. [reset(antCount)] clears the scent field and the obstacle mask cell
    by cell, empties the food store, zeroes the score and the tick counter,
    and leaves exactly antCount (none if negative) freshly spawned ants:
    searching, within half a cell of the nest, heading in [-PI, PI).  The
    grid, the nest and the scratch buffer are untouched. *)
Theorem X5_reset w antCount g :
  validRng g ->
  let w' := (reset w antCount g).1 in
  toFood w' = replicate (length (toFood w)) 0
  /\ obstacles w' = replicate (length (obstacles w)) 0%Z
  /\ foodPiles w' = [] /\ score w' = 0%Z /\ ticks w' = 0%Z
  /\ length (ants w') = Z.to_nat antCount
  /\ Forall (freshAnt w) (ants w')
  /\ gridWidth w' = gridWidth w /\ gridHeight w' = gridHeight w /\ nest w' = nest w
  /\ tempToFood w' = tempToFood w /\ flags w' = flags w.
Proof.
  intros Hg. cbv zeta. unfold reset.
  match goal with |- context [spawnAnts ?n ?w0 g] =>
    destruct (spawnAnts_spec n w0 g Hg) as (l & -> & Hlen & Hall & _) end.
  simpl. repeat split; done.
Qed.

Lemma X5_reset_witness :
  length (ants (reset walledWorld 3 halfRng).1) = 3%nat
  /\ obstacles (reset walledWorld 3 halfRng).1 = replicate (length (obstacles walledWorld)) 0%Z.
Proof.
  destruct (X5_reset walledWorld 3 halfRng validRng_halfRng)
    as (_ & Ho & _ & _ & _ & Hl & _).
  split; [exact Hl | exact Ho].
Defined.

(** X6. [setAntCount(targetCount)] leaves exactly clamp(targetCount, 1,
    MAX_ANTS) ants.  The ants that were there keep their slot and state up to
    the new length; ants beyond the old length are freshly spawned; nothing
    but the ant list changes. *)
Theorem X6_setAntCount w targetCount g :
  validRng g ->
  let w' := (setAntCount w targetCount g).1 in
  Z.of_nat (length (ants w')) = clampZ targetCount 1 MAX_ANTS
  /\ take (length (ants w)) (ants w') = take (length (ants w')) (ants w)
  /\ Forall (freshAnt w) (drop (length (ants w)) (ants w'))
  /\ w' = set_ants w (ants w').
Proof.
  intros Hg. cbv zeta. unfold setAntCount.
  set (t := clampZ targetCount 1 MAX_ANTS).
  assert (Ht : (1 <= t <= MAX_ANTS)%Z) by (unfold t, clampZ, MAX_ANTS; lia).
  destruct (Z.gtb_spec t (Z.of_nat (length (ants w)))) as [Hgt|Hle].
  - destruct (spawnAnts_spec (Z.to_nat (t - Z.of_nat (length (ants w)))) w g Hg)
      as (l & -> & Hlen & Hall & _).
    simpl. rewrite length_app, Hlen.
    split; [lia|]. split; [|split; [|done]].
    + rewrite take_app_length. rewrite take_ge; [done | lia].
    + by rewrite drop_app_length.
  - destruct (Z.ltb_spec t (Z.of_nat (length (ants w)))) as [Hlt|Hge]; simpl.
    + rewrite length_take. split; [lia|]. split; [|split; [|done]].
      * rewrite take_take. f_equal. lia.
      * rewrite drop_ge; [constructor | rewrite length_take; lia].
    + split; [lia|]. split; [done|]. split; [|by destruct w].
      rewrite drop_all. constructor.
Qed.

Lemma X6_setAntCount_witness :
  Z.of_nat (length (ants (setAntCount tickedWorld 5000 halfRng).1)) = 1000%Z
  /\ Z.of_nat (length (ants (setAntCount tickedWorld 0 halfRng).1)) = 1%Z.
Proof.
  destruct (X6_setAntCount tickedWorld 5000 halfRng validRng_halfRng) as (H1 & _).
  destruct (X6_setAntCount tickedWorld 0 halfRng validRng_halfRng) as (H2 & _).
  split; [exact H1 | exact H2].
Defined.

(** ** The food store *)

Lemma pilesTotal_app l1 l2 : pilesTotal (l1 ++ l2) = (pilesTotal l1 + pilesTotal l2)%Z.
Proof. induction l1 as [|f l1 IH]; simpl; [done|]. rewrite IH. lia. Qed.

Lemma pilesTotal_alter (h : FoodPile -> FoodPile) (d : Z) (piles : list FoodPile) :
  (forall f, amount (h f) = (amount f + d)%Z) ->
  forall i : nat, (i < length piles)%nat ->
  pilesTotal (alter h i piles) = (pilesTotal piles + d)%Z.
Proof.
  intros Hh. induction piles as [|f piles IH]; intros i Hi; simpl in *; [lia|].
  destruct i as [|i]; simpl.
  - rewrite Hh. lia.
  - specialize (IH i ltac:(lia)). unfold alter in IH. rewrite IH. lia.
Qed.

(** X7. [addFood] never loses food: the units in piles grow by exactly the
    amount added.  The amount goes to the first pile within
    FOOD_RADIUS_CELLS + 1 of the cell when there is one (the store keeps its
    length and every pile its position), and otherwise to a new pile at the
    cell, appended at the end. *)
Theorem X7_addFood_conserves w cellX cellY amt :
  let piles := foodPiles w in
  let piles' := foodPiles (addFood w cellX cellY amt) in
  pilesTotal piles' = (pilesTotal piles + amt)%Z
  /\ match list_find (mergeable cellX cellY) piles with
     | Some (i, f) =>
         length piles' = length piles
         /\ map (fun p => (pile_x p, pile_y p)) piles' = map (fun p => (pile_x p, pile_y p)) piles
         /\ piles' !! i = Some (mkPile (pile_x f) (pile_y f) (amount f + amt))
     | None => piles' = piles ++ [mkPile cellX cellY amt]
     end
  /\ addFood w cellX cellY amt = set_foodPiles w piles'.
Proof.
  cbv zeta. unfold addFood.
  destruct (list_find (mergeable cellX cellY) (foodPiles w)) as [[i f]|] eqn:E; simpl.
  - apply list_find_Some in E as (Hi & _ & _).
    pose proof (lookup_lt_Some _ _ _ Hi) as Hlt.
    split; [by apply pilesTotal_alter|]. split; [|done].
    split; [apply length_alter|]. split.
    + clear Hi Hlt. revert i. induction (foodPiles w) as [|p l IH]; intros [|i]; simpl;
        try done. f_equal. apply IH.
    + rewrite list_lookup_alter_eq, Hi. done.
  - split; [|done]. rewrite pilesTotal_app. simpl. lia.
Qed.

Lemma pickUpFrom_spec piles cx cy :
  match list_find (fun f => Is_true (eligible cx cy f)) piles with
  | Some (i, f) =>
      pickUpFrom piles cx cy
      = (take i piles
           ++ (if (amount f - 1 <=? 0)%Z then []
               else [mkPile (pile_x f) (pile_y f) (amount f - 1)])
           ++ drop (S i) piles, true)
  | None => pickUpFrom piles cx cy = (piles, false)
  end.
Proof.
  induction piles as [|f rest IH]; simpl; [done|].
  fold (eligible cx cy f).
  destruct (decide (Is_true (eligible cx cy f))) as [He|He].
  - apply Is_true_true in He. rewrite He. simpl. by destruct (_ <=? _)%Z.
  - apply Is_true_false in He. rewrite He.
    destruct (list_find _ rest) as [[i f']|]; simpl; rewrite IH; done.
Qed.

(** X8. [pickUpFoodAt] takes the food from the first eligible pile in store
    order (within FOOD_RADIUS_CELLS of the cell, amount above 0), whatever
    its distance: the piles before and after it are untouched, it loses one
    unit, and it is removed from the store exactly when that was its last
    unit.  Without an eligible pile the call fails and the store is as it
    was. *)
Theorem X8_pickUp_first_match w cellX cellY :
  let piles := foodPiles w in
  match list_find (fun f => Is_true (eligible cellX cellY f)) piles with
  | Some (i, f) =>
      pickUpFoodAt w cellX cellY
      = (set_foodPiles w
           (take i piles
              ++ (if (amount f =? 1)%Z then []
                  else [mkPile (pile_x f) (pile_y f) (amount f - 1)])
              ++ drop (S i) piles), true)
  | None => pickUpFoodAt w cellX cellY = (set_foodPiles w piles, false)
  end.
Proof.
  cbv zeta. unfold pickUpFoodAt.
  pose proof (pickUpFrom_spec (foodPiles w) cellX cellY) as H.
  destruct (list_find _ (foodPiles w)) as [[i f]|] eqn:E; rewrite H; [|done].
  apply list_find_Some in E as (_ & He & _).
  apply Is_true_true, andb_true_iff in He as [_ Hpos].
  destruct (Z.eqb_spec (amount f) 1) as [E1|E1];
    destruct (Z.leb_spec (amount f - 1) 0); try done; lia.
Qed.

(** X9. Food conservation at a pickup: a successful pickup lowers the units
    in piles by exactly one and a failed one changes nothing; the store never
    grows; and when every pile held a positive amount before, every pile
    holds a positive amount after (no empty or negative pile is left). *)
Theorem X9_pickUp_conserves w cellX cellY :
  let w' := (pickUpFoodAt w cellX cellY).1 in
  let ok := (pickUpFoodAt w cellX cellY).2 in
  pilesTotal (foodPiles w') = (pilesTotal (foodPiles w) - (if ok then 1 else 0))%Z
  /\ (if ok then length (foodPiles w') <= length (foodPiles w)
      else foodPiles w' = foodPiles w)%nat
  /\ (Forall (fun f => (0 < amount f)%Z) (foodPiles w) ->
      Forall (fun f => (0 < amount f)%Z) (foodPiles w'))
  /\ w' = set_foodPiles w (foodPiles w').
Proof.
  cbv zeta. unfold pickUpFoodAt.
  pose proof (pickUpFrom_spec (foodPiles w) cellX cellY) as H.
  destruct (list_find _ (foodPiles w)) as [[i f]|] eqn:E; rewrite H; simpl;
    [|repeat split; (lia || done)].
  apply list_find_Some in E as (Hi & He & _).
  apply Is_true_true, andb_true_iff in He as [_ Hpos].
  pose proof (take_drop_middle _ _ _ Hi) as Hmid.
  assert (Ht : pilesTotal (foodPiles w)
               = (pilesTotal (take i (foodPiles w)) + amount f
                  + pilesTotal (drop (S i) (foodPiles w)))%Z).
  { rewrite <- Hmid at 1. rewrite pilesTotal_app. simpl. lia. }
  assert (Hl : length (foodPiles w)
               = (length (take i (foodPiles w)) + 1
                  + length (drop (S i) (foodPiles w)))%nat).
  { rewrite <- Hmid at 1. rewrite length_app. simpl. lia. }
  split; [|split; [|split; [|done]]].
  - rewrite Ht, !pilesTotal_app. destruct (Z.leb_spec (amount f - 1) 0); simpl; lia.
  - rewrite Hl, !length_app. destruct (_ <=? _)%Z; simpl; lia.
  - intros Hall. rewrite <- Hmid in Hall.
    apply Forall_app in Hall as [H1 H2]. apply Forall_cons in H2 as [_ H2].
    apply Forall_app. split; [done|]. apply Forall_app. split; [|done].
    destruct (Z.leb_spec (amount f - 1) 0); [constructor|].
    apply Forall_singleton. simpl. lia.
Qed.

Lemma X9_pickUp_conserves_witness :
  Forall (fun f => (0 < amount f)%Z) (foodPiles (pickUpFoodAt pileWorld 10 10).1).
Proof.
  destruct (X9_pickUp_conserves pileWorld 10 10) as (_ & _ & H & _).
  apply H. repeat constructor.
Defined.

(** ** What one step does to the world *)

Lemma pickUpFrom_total piles cx cy :
  pilesTotal (pickUpFrom piles cx cy).1
  = (pilesTotal piles - (if (pickUpFrom piles cx cy).2 then 1 else 0))%Z.
Proof.
  induction piles as [|f rest IH]; simpl; [done|].
  destruct (distanceCells_le _ _ _ _ _ && (amount f >? 0)%Z) eqn:E.
  - apply andb_true_iff in E as [_ E]. simpl.
    destruct (Z.leb_spec (amount f - 1) 0); simpl; lia.
  - destruct (pickUpFrom rest cx cy) as [rest' ok]. simpl in *. lia.
Qed.

Lemma depositAndInteract_world vp M w a rate :
  let d := depositAndInteract vp M w a rate in
  toFood d.1
  = (if hasFood a
     then aset (toFood w) (cellIndex vp w a)
            (Qmin PHEROMONE_MAX (readF (toFood w) (cellIndex vp w a) + rate))
     else toFood w)
  /\ foodPiles d.1
     = (if hasFood a then foodPiles w
        else (pickUpFoodAt w (clampZ (cellX a) 0 (gridWidth w - 1))
                             (clampZ (cellY a) 0 (gridHeight w - 1))).1.(foodPiles))
  /\ angle d.2
     = (if negb (hasFood a) && picksUp w a
        then atan2 M (inject_Z (nest w).2 - ant_y a) (inject_Z (nest w).1 - ant_x a)
        else angle a)
  /\ wiggle d.2 = wiggle a.
Proof.
  destruct a as [x y th hf wg].
  unfold depositAndInteract, cellIndex, picksUp, cellX, cellY. simpl.
  set (ix := clampZ _ _ _). set (iy := clampZ _ _ _).
  destruct hf; simpl.
  - destruct (distanceCells_le _ _ _ _ _); simpl; done.
  - unfold pickUpFoodAt. destruct (pickUpFrom _ _ _) as [piles [|]]; simpl; done.
Qed.

Lemma step_world vp M w a sm g :
  let m := movedAnt vp M w a sm g in
  let w' := (step vp M w a sm g).1.1 in
  let a' := (step vp M w a sm g).1.2 in
  toFood w'
  = (if hasFood a
     then aset (toFood w) (cellIndex vp w m)
            (Qmin PHEROMONE_MAX (readF (toFood w) (cellIndex vp w m) + PHEROMONE_DEPOSIT_FOOD))
     else toFood w)
  /\ foodPiles w'
     = (if hasFood a then foodPiles w
        else (pickUpFoodAt w (clampZ (cellX m) 0 (gridWidth w - 1))
                             (clampZ (cellY m) 0 (gridHeight w - 1))).1.(foodPiles))
  /\ angle a'
     = (if negb (hasFood a) && picksUp w m
        then homeAngle M w m else angle m)
  /\ wiggle a' = wiggle a.
Proof.
  cbv zeta. rewrite step_unfold. cbn [fst snd].
  pose proof (depositAndInteract_world vp M w (movedAnt vp M w a sm g) (depositRateOf a)) as H.
  cbv zeta in H. rewrite !movedAnt_hasFood in H.
  destruct H as (H1 & H2 & H3 & H4). rewrite H1, H2, H3, H4.
  unfold depositRateOf, homeAngle.
  split; [by destruct (hasFood a)|]. split; [done|]. split; [done|].
  by rewrite movedAnt_spec.
Qed.

Lemma aget_aset_other {A} (arr : list A) i j v : i <> j -> aget (aset arr i v) j = aget arr j.
Proof.
  intros Hne. destruct (Z.ltb_spec j 0) as [Hj|Hj].
  - unfold aget. by destruct (Z.ltb_spec j 0); [|lia].
  - by apply aget_aset_ne.
Qed.

Lemma aget_Some_range {A} (arr : list A) i v :
  aget arr i = Some v -> (0 <= i < Z.of_nat (length arr))%Z.
Proof.
  unfold aget. destruct (Z.ltb_spec i 0) as [Hi|Hi]; [done|]. intros Hv.
  apply lookup_lt_Some in Hv. lia.
Qed.

(** X10. Only carrying ants lay trail.  The step of a searching ant leaves
    the whole scent field as it was.  The step of a carrying ant changes one
    cell, the one under the ant after its move: its value v becomes
    min(PHEROMONE_MAX, v + PHEROMONE_DEPOSIT_FOOD); every other cell keeps its
    value.  No step changes the obstacle mask, the ant list, the nest, the
    grid, the tick counter or the scratch buffer. *)
Theorem X10_step_deposit vp M w a sm g :
  let w' := (step vp M w a sm g).1.1 in
  let i := cellIndex vp w (movedAnt vp M w a sm g) in
  (hasFood a = false -> toFood w' = toFood w)
  /\ (hasFood a = true ->
      length (toFood w') = length (toFood w)
      /\ (forall j, j <> i -> aget (toFood w') j = aget (toFood w) j)
      /\ (forall v, aget (toFood w) i = Some v ->
            aget (toFood w') i = Some (Qmin PHEROMONE_MAX (v + PHEROMONE_DEPOSIT_FOOD))))
  /\ obstacles w' = obstacles w /\ ants w' = ants w /\ nest w' = nest w
  /\ gridWidth w' = gridWidth w /\ gridHeight w' = gridHeight w
  /\ ticks w' = ticks w /\ tempToFood w' = tempToFood w /\ flags w' = flags w.
Proof.
  cbv zeta. destruct (step_world vp M w a sm g) as (Hf & _).
  destruct (step_frame vp M w a sm g) as (f & p & s & E & _).
  split; [intros Ha; by rewrite Hf, Ha|]. split; [|by rewrite E].
  intros Ha. rewrite Hf, Ha. split; [apply length_aset|]. split.
  - intros j Hj. by apply aget_aset_other.
  - intros v Hv. rewrite aget_aset_eq by (by eapply aget_Some_range).
    unfold readF. by rewrite Hv.
Qed.

Lemma X10_step_deposit_witness :
  toFood (step phone eastMath pileWorld forager 1 halfRng).1.1 = toFood pileWorld
  /\ length (toFood (step phone eastMath (World_new phone) carrier 1 halfRng).1.1)
     = length (toFood (World_new phone)).
Proof.
  destruct (X10_step_deposit phone eastMath pileWorld forager 1 halfRng) as (H1 & _).
  destruct (X10_step_deposit phone eastMath (World_new phone) carrier 1 halfRng)
    as (_ & H2 & _).
  split; [exact (H1 eq_refl) | exact (proj1 (H2 eq_refl))].
Defined.

(** X11. A pickup turns the ant home at once: when a searching ant picks
    food up, its heading after the step is the bearing from its position
    straight to the nest, without the turn clamp; in every other step the
    heading is the one the move and the collision check left. *)
Theorem X11_pickup_orients vp M w a sm g :
  let m := movedAnt vp M w a sm g in
  let a' := (step vp M w a sm g).1.2 in
  angle a' = (if negb (hasFood a) && picksUp w m then homeAngle M w a' else angle m)
  /\ (negb (hasFood a) && picksUp w m = true -> hasFood a' = true).
Proof.
  cbv zeta. destruct (step_world vp M w a sm g) as (_ & _ & Ha & _).
  destruct (step_state vp M w a sm g) as (Hf & _ & Hx & Hy).
  split.
  - rewrite Ha. unfold homeAngle. by rewrite Hx, Hy.
  - intros H. apply andb_true_iff in H as [H1 H2]. apply negb_true_iff in H1.
    rewrite Hf, H1. exact H2.
Qed.

Lemma X11_pickup_orients_witness :
  hasFood (step phone eastMath pileWorld forager 1 halfRng).1.2 = true.
Proof.
  apply (proj2 (X11_pickup_orients phone eastMath pileWorld forager 1 halfRng)).
  vm_compute. reflexivity.
Defined.

(** ** Food accounting *)

Lemma carriedBy_insert (l : list Ant) (i : nat) (a a' : Ant) :
  l !! i = Some a ->
  carriedBy (<[i := a']> l) = (carriedBy l - load a + load a')%Z.
Proof.
  revert i. induction l as [|b l IH]; intros [|i] Hi; simpl in *; try done.
  - injection Hi as ->. unfold load. lia.
  - specialize (IH i Hi). lia.
Qed.

Lemma step_ledger vp M w a sm g :
  (pilesTotal (foodPiles (step vp M w a sm g).1.1) + load (step vp M w a sm g).1.2
   + score (step vp M w a sm g).1.1
   = pilesTotal (foodPiles w) + load a + score w)%Z.
Proof.
  destruct (step_world vp M w a sm g) as (_ & Hp & _).
  destruct (step_state vp M w a sm g) as (Hf & Hs & _).
  rewrite Hp, Hs. unfold load. rewrite Hf.
  destruct (hasFood a); simpl.
  - destruct (atNest w _ _); simpl; lia.
  - unfold pickUpFoodAt.
    pose proof (pickUpFrom_total (foodPiles w)
                  (clampZ (cellX (movedAnt vp M w a sm g)) 0 (gridWidth w - 1))
                  (clampZ (cellY (movedAnt vp M w a sm g)) 0 (gridHeight w - 1))) as Ht.
    destruct (pickUpFrom _ _ _) as [piles ok]. simpl in *. destruct ok; lia.
Qed.

Lemma foodLedger_stepAnts vp M w sm g :
  foodLedger (stepAnts vp M w sm g).1 = foodLedger w.
Proof.
  unfold stepAnts.
  apply (fold_left_preserves (stepAnt vp M sm) (fun st => foodLedger st.1 = foodLedger w));
    [|done].
  intros [w1 g1] i _ H1. simpl in H1. rewrite <- H1.
  destruct (stepAnt_cases vp M sm w1 g1 i) as [[_ ->] | (a & Ha & ->)]; [done|].
  pose proof (step_ledger vp M w1 a sm g1) as Hl.
  destruct (step_frame vp M w1 a sm g1) as (f & p & s & E & _).
  unfold foodLedger. simpl. rewrite E in *. simpl in *.
  rewrite (carriedBy_insert _ _ a) by done. lia.
Qed.

Lemma foodLedger_tick vp M w sm g : foodLedger (tick vp M w sm g).1 = foodLedger w.
Proof.
  unfold tick. pose proof (foodLedger_stepAnts vp M w sm g) as H.
  by destruct (stepAnts vp M w sm g) as [w1 g1].
Qed.

(** X12. Food is accounted for.  Call the ledger of a world the units in
    its piles, plus one per carrying ant, plus the score.  One step of an ant
    keeps the sum of the piles, the ant's load and the score; a whole tick
    keeps the ledger; addFood raises it by the amount added; setWall keeps
    it.  (Food leaves the ledger only with a reset or with carrying ants that
    setAntCount removes.) *)
Theorem X12_food_ledger :
  (forall vp M w a sm g,
     (pilesTotal (foodPiles (step vp M w a sm g).1.1) + load (step vp M w a sm g).1.2
      + score (step vp M w a sm g).1.1
      = pilesTotal (foodPiles w) + load a + score w)%Z)
  /\ (forall vp M w sm g, foodLedger (tick vp M w sm g).1 = foodLedger w)
  /\ (forall w cx cy amt, foodLedger (addFood w cx cy amt) = (foodLedger w + amt)%Z)
  /\ (forall vp w cx cy b r, foodLedger (setWall vp w cx cy b r) = foodLedger w).
Proof.
  split; [apply step_ledger|]. split; [|split].
  - intros. apply foodLedger_tick.
  - intros. unfold addFood, foodLedger.
    destruct (list_find _ _) as [[i f]|] eqn:E; simpl.
    + apply list_find_Some in E as (Hi & _ & _).
      rewrite (pilesTotal_alter _ amt) ; [lia | done | by eapply lookup_lt_Some].
    + rewrite pilesTotal_app. simpl. lia.
  - intros. by destruct (setWall_frame vp w cx cy b r) as (o & -> & _).
Qed.

Lemma length_ants_stepAnts vp M w sm g :
  length (ants (stepAnts vp M w sm g).1) = length (ants w).
Proof.
  unfold stepAnts.
  apply (fold_left_preserves (stepAnt vp M sm)
           (fun st => length (ants st.1) = length (ants w))); [|done].
  intros [w1 g1] i _ H1. simpl in H1. rewrite <- H1.
  destruct (stepAnt_cases vp M sm w1 g1 i) as [[_ ->] | (a & Ha & ->)]; [done|].
  destruct (step_frame vp M w1 a sm g1) as (f & p & s & E & _).
  simpl. rewrite E. simpl. apply length_insert.
Qed.

Lemma step_piles_le vp M w a sm g :
  (pilesTotal (foodPiles (step vp M w a sm g).1.1) <= pilesTotal (foodPiles w))%Z.
Proof.
  destruct (step_world vp M w a sm g) as (_ & Hp & _).
  rewrite Hp. destruct (hasFood a); simpl; [lia|].
  unfold pickUpFoodAt.
  pose proof (pickUpFrom_total (foodPiles w)
                (clampZ (cellX (movedAnt vp M w a sm g)) 0 (gridWidth w - 1))
                (clampZ (cellY (movedAnt vp M w a sm g)) 0 (gridHeight w - 1))) as Ht.
  destruct (pickUpFrom _ _ _) as [piles ok]. simpl in *. destruct ok; lia.
Qed.

Lemma pilesTotal_stepAnts_le vp M w sm g :
  (pilesTotal (foodPiles (stepAnts vp M w sm g).1) <= pilesTotal (foodPiles w))%Z.
Proof.
  unfold stepAnts.
  apply (fold_left_preserves (stepAnt vp M sm)
           (fun st => (pilesTotal (foodPiles st.1) <= pilesTotal (foodPiles w))%Z));
    [|simpl; lia].
  intros [w1 g1] i _ H1. simpl in H1.
  destruct (stepAnt_cases vp M sm w1 g1 i) as [[_ ->] | (a & Ha & ->)]; [done|].
  pose proof (step_piles_le vp M w1 a sm g1) as Hl.
  destruct (step_frame vp M w1 a sm g1) as (f & p & s & E & _).
  simpl. rewrite E in *. simpl in *. lia.
Qed.

Lemma tick_facts vp M w sm g :
  let w' := (tick vp M w sm g).1 in
  ticks w' = (ticks w + 1)%Z
  /\ length (ants w') = length (ants w)
  /\ obstacles w' = obstacles w /\ nest w' = nest w
  /\ gridWidth w' = gridWidth w /\ gridHeight w' = gridHeight w /\ flags w' = flags w
  /\ (pilesTotal (foodPiles w') <= pilesTotal (foodPiles w))%Z.
Proof.
  cbv zeta. unfold tick.
  pose proof (length_ants_stepAnts vp M w sm g) as Hlen.
  pose proof (pilesTotal_stepAnts_le vp M w sm g) as Hpl.
  destruct (stepAnts_frame vp M w sm g) as (f & p & a & s & E).
  destruct (stepAnts vp M w sm g) as [w1 g1]. simpl in *. subst w1.
  simpl in *.
  repeat split; try done.
Qed.

(** X13. One tick (every ant stepped in list order, then one field advance)
    raises the tick counter by exactly one and keeps the number of ants, the
    obstacle mask, the nest, the grid and the display flags; the food in the
    piles never grows during a tick. *)
Theorem X13_tick_frame vp M w sm g :
  let w' := (tick vp M w sm g).1 in
  ticks w' = (ticks w + 1)%Z
  /\ length (ants w') = length (ants w)
  /\ obstacles w' = obstacles w /\ nest w' = nest w
  /\ gridWidth w' = gridWidth w /\ gridHeight w' = gridHeight w /\ flags w' = flags w
  /\ (pilesTotal (foodPiles w') <= pilesTotal (foodPiles w))%Z.
Proof. apply tick_facts. Qed.

(** ** Sensing *)

Lemma sampleLateral_inv vp M w field ang sx sy acc s :
  Forall inBounds field ->
  (0 <= acc.2)%Z /\ 0 <= acc.1 /\ acc.1 <= inject_Z acc.2 * PHEROMONE_MAX ->
  let acc' := sampleLateral vp M w field ang sx sy acc s in
  (0 <= acc'.2)%Z /\ 0 <= acc'.1 /\ acc'.1 <= inject_Z acc'.2 * PHEROMONE_MAX.
Proof.
  intros Hf. destruct acc as [sum samples]. simpl. intros (Hn & H0 & Hmax).
  unfold sampleLateral.
  destruct (_ || _ || _ || _)%Z; [done|].
  destruct (isWallAt _ _); [done|]. simpl.
  match goal with |- context [readF field ?i] =>
    destruct (readF_inBounds field i Hf) as [Hv0 Hv1]; set (v := readF field i) in * end.
  rewrite inject_Z_plus. change (inject_Z 1) with 1.
  unfold PHEROMONE_MAX in *. split; [lia|]. split; lra.
Qed.

Lemma sampleCone_inBounds vp M w a field ang :
  Forall inBounds field -> inBounds (sampleCone vp M w a field ang).
Proof.
  intros Hf. unfold sampleCone.
  set (P := fun acc : Q * Z =>
              (0 <= acc.2)%Z /\ 0 <= acc.1 /\ acc.1 <= inject_Z acc.2 * PHEROMONE_MAX).
  assert (HP : P (fold_left
                    (fun acc d =>
                       fold_left
                         (sampleLateral vp M w field ang
                            (Qfloor (ant_x a + cos M ang * inject_Z d))
                            (Qfloor (ant_y a + sin M ang * inject_Z d)))
                         (zrange (- SENSOR_SPREAD) SENSOR_SPREAD) acc)
                    (zrange 1 (SENSOR_OFFSET + 1)) (0, 0%Z))).
  { apply (fold_left_preserves _ P).
    - intros acc d _ Hacc. apply (fold_left_preserves _ P); [|done].
      intros acc' s _ Hacc'. by apply sampleLateral_inv.
    - unfold P, PHEROMONE_MAX. simpl. change (inject_Z 0) with 0.
      split; [lia|]. split; lra. }
  destruct (fold_left _ _ _) as [sum samples]. destruct HP as (Hn & H0 & Hmax).
  simpl in *. destruct (Z.gtb_spec samples 0) as [Hpos|Hz]; [|apply inBounds_0].
  assert (Hq : 0 < inject_Z samples) by (rewrite <- (Zlt_Qlt 0); lia).
  split.
  - apply Qle_shift_div_l; [done|]. lra.
  - apply Qle_shift_div_r; [done|]. lra.
Qed.

(** X14. What an ant senses is a field strength: in every reachable world
    each of the three sensed values (forward, left, right), being the mean of
    the field over the cells of a cone that are on the grid and not
    obstacles, or 0 when there is no such cell, lies between 0 and
    PHEROMONE_MAX; a carrying ant senses 0 in all three directions. *)
Theorem X14_sense_bounded vp M w a :
  reachable vp M w ->
  let s := sense vp M w a in
  (0 <= forward s /\ forward s <= PHEROMONE_MAX)
  /\ (0 <= left s /\ left s <= PHEROMONE_MAX)
  /\ (0 <= right s /\ right s <= PHEROMONE_MAX)
  /\ (hasFood a = true -> s = noSignal).
Proof.
  intros Hr. cbv zeta. apply reachable_fieldBounded in Hr as [Hf _].
  unfold sense. destruct (hasFood a); simpl.
  - repeat split; unfold PHEROMONE_MAX; lra.
  - split; [apply sampleCone_inBounds; done|].
    split; [apply sampleCone_inBounds; done|].
    split; [apply sampleCone_inBounds; done|]. done.
Qed.

Lemma X14_sense_bounded_witness :
  0 <= forward (sense phone eastMath trailWorld forager)
  /\ forward (sense phone eastMath trailWorld forager) <= PHEROMONE_MAX.
Proof.
  exact (proj1 (X14_sense_bounded phone eastMath trailWorld forager reachable_trailWorld)).
Defined.

(** ** Painting walls *)

Lemma fold_aset_untouched {A K} (key : K -> Z) (val : K -> A) (ks : list K) (j : Z) :
  (forall k, k ∈ ks -> key k <> j) ->
  forall dst, aget (fold_left (fun d k => aset d (key k) (val k)) ks dst) j = aget dst j.
Proof.
  induction ks as [|k ks IH]; intros Hk dst; simpl; [done|].
  rewrite IH by (intros k' Hk'; apply Hk; by right).
  apply aget_aset_other. apply Hk. by left.
Qed.

Lemma fold_left_filter {A B} (G : A -> B -> A) (c : B -> bool) (l : list B) (a : A) :
  fold_left (fun a b => if c b then G a b else a) l a
  = fold_left G (List.filter c l) a.
Proof.
  revert a. induction l as [|b l IH]; intros a; simpl; [done|].
  destruct (c b); simpl; apply IH.
Qed.

(** The two loops of [setWall] as one loop of writes over the painted cells. *)
Lemma setWall_as_writes vp w cx cy b r :
  setWall vp w cx cy b r
  = set_obstacles w
      (fold_left (fun o p => aset o (indexOf vp p.1 p.2) (if b then 1 else 0)%Z)
         (List.filter (fun p => painted w cx cy r p.1 p.2)
            (flat_map (fun y => map (fun x => (x, y)) (zrange (cx - r) (cx + r)))
               (zrange (cy - r) (cy + r))))
         (obstacles w)).
Proof.
  unfold setWall.
  rewrite (fold_left_nested (fun w' p => setWallCell vp cx cy b r w' p.1 p.2)).
  rewrite <- fold_left_filter.
  generalize (flat_map (fun y => map (fun x => (x, y)) (zrange (cx - r) (cx + r)))
                (zrange (cy - r) (cy + r))) as ps.
  assert (Hgen : forall ps o,
            fold_left (fun w' p => setWallCell vp cx cy b r w' p.1 p.2) ps (set_obstacles w o)
            = set_obstacles w
                (fold_left (fun o p => if painted w cx cy r p.1 p.2
                                       then aset o (indexOf vp p.1 p.2) (if b then 1 else 0)%Z
                                       else o) ps o)).
  { induction ps as [|[x y] ps IH]; intros o; simpl; [done|].
    rewrite <- IH. f_equal. unfold setWallCell, painted, atNest. simpl.
    destruct (_ || _ || _ || _)%Z; simpl; [done|].
    destruct (distanceCells_le x y _ _ NEST_RADIUS_CELLS); simpl; [done|].
    by destruct (distanceCells_le x y cx cy r). }
  intros ps. rewrite <- Hgen. f_equal. by destruct w.
Qed.

Lemma in_disc_in_range x y cx cy r :
  distanceCells_le x y cx cy r = true ->
  (cx - r <= x <= cx + r)%Z /\ (cy - r <= y <= cy + r)%Z.
Proof.
  unfold distanceCells_le. intros H. apply andb_true_iff in H as [Hr Hd].
  apply Z.leb_le in Hr, Hd.
  set (dx := (x - cx)%Z) in *. set (dy := (y - cy)%Z) in *.
  assert (Hx2 : (dx * dx <= r * r)%Z) by nia.
  assert (Hy2 : (dy * dy <= r * r)%Z) by nia.
  assert (- r <= dx <= r)%Z by (split; nia).
  assert (- r <= dy <= r)%Z by (split; nia).
  unfold dx, dy in *. lia.
Qed.

Lemma setWall_cell vp w cx cy b r x y :
  shaped vp w -> (0 <= x < gridWidth w)%Z -> (0 <= y < gridHeight w)%Z ->
  isWallAt (obstacles (setWall vp w cx cy b r)) (indexOf vp x y)
  = (if painted w cx cy r x y then b else isWallAt (obstacles w) (indexOf vp x y)).
Proof.
  intros Hs Hx Hy. rewrite setWall_as_writes. simpl.
  destruct Hs as [Hgw Hgh _ _ _ Hlen].
  set (ps := List.filter _ _).
  assert (Hps : forall p, p ∈ ps ->
            painted w cx cy r p.1 p.2 = true /\ (0 <= p.1 < GRID_WIDTH vp)%Z).
  { intros p Hp. apply list_elem_of_In, filter_In in Hp as [_ Hp]. split; [done|].
    unfold painted in Hp. apply andb_true_iff in Hp as [Hp _].
    apply andb_true_iff in Hp as [Hp _]. apply negb_true_iff in Hp. lia. }
  destruct (painted w cx cy r x y) eqn:Hpaint.
  - unfold isWallAt.
    pose proof (fold_aset_lookup (fun p : Z * Z => indexOf vp p.1 p.2)
                  (fun _ => (if b then 1 else 0)%Z) ps (obstacles w) (x, y)) as Hl.
    cbn [fst snd] in Hl. rewrite Hl.
    + by destruct b.
    + apply list_elem_of_In, filter_In. split; [|done].
      pose proof Hpaint as Hd. unfold painted in Hd. apply andb_true_iff in Hd as [_ Hd].
      apply in_disc_in_range in Hd as [Hdx Hdy].
      apply in_flat_map. exists y. split; [apply list_elem_of_In, elem_of_zrange; lia|].
      apply in_map_iff. exists x. split; [done|].
      apply list_elem_of_In, elem_of_zrange. lia.
    + done.
    + simpl. rewrite Hlen. pose proof (indexOf_in_range vp x y). lia.
  - unfold isWallAt. rewrite fold_aset_untouched; [done|].
    intros [x' y'] Hp E. destruct (Hps _ Hp) as [Hp' Hx']. simpl in *.
    apply indexOf_inj in E as [-> ->]; [|done|lia]. congruence.
Qed.

(** X15. What [setWall] does to every cell of the grid: a cell within
    radiusCells of the centre and outside the nest zone is blocked when
    isWall is true and passable when it is false; every other cell of the
    grid keeps its flag.  A negative radius paints nothing. *)
Theorem X15_setWall_cells vp M w cx cy b r x y :
  reachable vp M w -> (0 <= x < gridWidth w)%Z -> (0 <= y < gridHeight w)%Z ->
  let wall' := isWallAt (obstacles (setWall vp w cx cy b r)) (indexOf vp x y) in
  (atNest w x y = false -> distanceCells_le x y cx cy r = true -> wall' = b)
  /\ (atNest w x y = true \/ distanceCells_le x y cx cy r = false ->
      wall' = isWallAt (obstacles w) (indexOf vp x y))
  /\ ((r < 0)%Z -> distanceCells_le x y cx cy r = false).
Proof.
  intros Hr Hx Hy. cbv zeta.
  rewrite (setWall_cell vp w cx cy b r x y (reachable_shaped vp M w Hr) Hx Hy).
  unfold painted.
  replace ((x <? 0) || (x >=? gridWidth w) || (y <? 0) || (y >=? gridHeight w))%Z
    with false by lia.
  simpl. split; [|split].
  - by intros -> ->.
  - intros [-> | ->]; [done|]. by destruct (atNest w x y).
  - intros Hneg. unfold distanceCells_le. destruct (Z.leb_spec 0 r); [lia | done].
Qed.

Lemma X15_setWall_cells_witness :
  isWallAt (obstacles (setWall phone (World_new phone) 5 5 true 2)) (indexOf phone 6 6) = true
  /\ isWallAt (obstacles (setWall phone walledWorld 20 20 false 5)) (indexOf phone 24 20) = false.
Proof.
  assert (H66 : (0 <= 6 < gridWidth (World_new phone))%Z) by (vm_compute; split; [discriminate | reflexivity]).
  assert (H24 : (0 <= 24 < gridWidth walledWorld)%Z) by (vm_compute; split; [discriminate | reflexivity]).
  assert (H20 : (0 <= 20 < gridHeight walledWorld)%Z) by (vm_compute; split; [discriminate | reflexivity]).
  split.
  - apply (proj1 (X15_setWall_cells phone eastMath (World_new phone) 5 5 true 2 6 6
                    (reach_new phone eastMath) H66 H66)); reflexivity.
  - apply (proj1 (X15_setWall_cells phone eastMath walledWorld 20 20 false 5 24 20
                    reachable_walledWorld H24 H20)); reflexivity.
Defined.

Lemma painted_setWall vp w cx cy b r cx' cy' r' x y :
  painted (setWall vp w cx cy b r) cx' cy' r' x y = painted w cx' cy' r' x y.
Proof. by destruct (setWall_frame vp w cx cy b r) as (o & -> & _). Qed.

(** X16. Erasing undoes building: after setWall(c, true, r) followed by
    setWall(c, false, r), every cell the two calls paint is passable and
    every other cell of the grid has the flag it had before both.  Building
    the same wall twice is the same as building it once. *)
Theorem X16_erase_undoes_build vp M w cx cy r x y :
  reachable vp M w -> (0 <= x < gridWidth w)%Z -> (0 <= y < gridHeight w)%Z ->
  let built := setWall vp w cx cy true r in
  let erased := setWall vp built cx cy false r in
  isWallAt (obstacles erased) (indexOf vp x y)
  = (if painted w cx cy r x y then false else isWallAt (obstacles w) (indexOf vp x y))
  /\ isWallAt (obstacles (setWall vp built cx cy true r)) (indexOf vp x y)
     = isWallAt (obstacles built) (indexOf vp x y).
Proof.
  intros Hr Hx Hy. cbv zeta.
  pose proof (reachable_shaped vp M w Hr) as Hs.
  pose proof (reachable_shaped vp M _ (reach_setWall vp M w cx cy true r Hr)) as Hs'.
  assert (Hx' : (0 <= x < gridWidth (setWall vp w cx cy true r))%Z)
    by (destruct (setWall_frame vp w cx cy true r) as (o & -> & _); done).
  assert (Hy' : (0 <= y < gridHeight (setWall vp w cx cy true r))%Z)
    by (destruct (setWall_frame vp w cx cy true r) as (o & -> & _); done).
  rewrite !(setWall_cell vp (setWall vp w cx cy true r)) by done.
  rewrite !painted_setWall, (setWall_cell vp w) by done.
  by destruct (painted w cx cy r x y).
Qed.

Lemma X16_erase_undoes_build_witness :
  isWallAt (obstacles (setWall phone walledWorld 20 20 false 5)) (indexOf phone 24 20)
  = (if painted (World_new phone) 20 20 5 24 20 then false
     else isWallAt (obstacles (World_new phone)) (indexOf phone 24 20)).
Proof.
  assert (H24 : (0 <= 24 < gridWidth (World_new phone))%Z)
    by (vm_compute; split; [discriminate | reflexivity]).
  assert (H20 : (0 <= 20 < gridHeight (World_new phone))%Z)
    by (vm_compute; split; [discriminate | reflexivity]).
  exact (proj1 (X16_erase_undoes_build phone eastMath (World_new phone) 20 20 5 24 20
                  (reach_new phone eastMath) H24 H20)).
Defined.

(** X17. The field advance is double buffered: in a reachable world the new
    value of every cell of the grid is the value [diffuseCell] computes from
    the field as it was before the call (its own old value and its eight old
    neighbours, clamped at the edges), whatever was written to other cells
    during the same call; afterwards the scratch buffer and the field hold
    the same values, and the field has its old length. *)
Theorem X17_advance_double_buffered vp M w x y :
  reachable vp M w -> (0 <= x < gridWidth w)%Z -> (0 <= y < gridHeight w)%Z ->
  scentAt vp (diffuseAndEvaporate vp w) x y
  = diffuseCell vp (gridWidth w) (gridHeight w) (toFood w) x y
  /\ tempToFood (diffuseAndEvaporate vp w) = toFood (diffuseAndEvaporate vp w)
  /\ length (toFood (diffuseAndEvaporate vp w)) = length (toFood w).
Proof.
  intros Hr Hx Hy. pose proof (reachable_shaped vp M w Hr) as Hs.
  split; [by apply scentAt_diffuseAndEvaporate|].
  destruct Hs as [_ _ _ Hf Ht _]. unfold diffuseAndEvaporate. simpl.
  rewrite typedArraySet_same_length by (rewrite length_diffuseInto; congruence).
  split; [done|]. rewrite length_diffuseInto. congruence.
Qed.

Lemma X17_advance_double_buffered_witness :
  scentAt phone (diffuseAndEvaporate phone trailWorld) 20 20
  = diffuseCell phone (gridWidth trailWorld) (gridHeight trailWorld) (toFood trailWorld) 20 20.
Proof.
  assert (Hx : (0 <= 20 < gridWidth trailWorld)%Z)
    by (vm_compute; split; [discriminate | reflexivity]).
  assert (Hy : (0 <= 20 < gridHeight trailWorld)%Z)
    by (vm_compute; split; [discriminate | reflexivity]).
  exact (proj1 (X17_advance_double_buffered phone eastMath trailWorld 20 20
                  reachable_trailWorld Hx Hy)).
Defined.

(** ** Random draws *)

Lemma decideTurn_rng M w a s g :
  ((decideTurn M w a s g).2 = g \/ (decideTurn M w a s g).2 = dropRng 1 g)
  /\ (hasFood a = true -> (decideTurn M w a s g).2 = g).
Proof.
  unfold decideTurn. destruct (hasFood a).
  - destruct (Qle_bool _ _); simpl; split; auto.
  - split; [|done].
    destruct (Qle_bool SCENT_THRESHOLD _); [|by right].
    destruct (_ && _); [by left|].
    destruct (Qltb (right s) (left s)); [by left|].
    destruct (Qltb (left s) (right s)); [by left | by right].
Qed.

Lemma step_rng vp M w a sm g :
  (step vp M w a sm g).2
  = (let g1 := (decideTurn M w a (sense vp M w a) g).2 in
     if blockedAt vp w (candidate vp M w a sm g).1 (candidate vp M w a sm g).2
     then dropRng 1 g1 else g1).
Proof.
  rewrite step_unfold. cbn [snd].
  pose proof (turnAndMove_spec vp M w a sm g) as H. cbv zeta in H.
  destruct (candidate vp M w a sm g) as [nx ny]. by rewrite H.
Qed.

(** X18. A step only consumes the generator, by at most two draws: one when
    a searching ant wanders (no scent above the threshold, or a left/right
    tie) and one when the candidate cell is an obstacle.  A carrying ant
    draws only in the second case. *)
Theorem X18_step_draws vp M w a sm g :
  let g' := (step vp M w a sm g).2 in
  let hitsWall := blockedAt vp w (candidate vp M w a sm g).1 (candidate vp M w a sm g).2 in
  (exists k, (k <= 2)%nat /\ g' = dropRng k g)
  /\ (hasFood a = true -> g' = if hitsWall then dropRng 1 g else g)
  /\ (validRng g -> validRng g').
Proof.
  cbv zeta. rewrite step_rng. cbv zeta.
  destruct (decideTurn_rng M w a (sense vp M w a) g) as [Hd Hc].
  set (b := blockedAt _ _ _ _).
  assert (Hk : exists k, (k <= 2)%nat
                 /\ (if b then dropRng 1 (decideTurn M w a (sense vp M w a) g).2
                     else (decideTurn M w a (sense vp M w a) g).2) = dropRng k g).
  { destruct Hd as [-> | ->]; destruct b.
    - exists 1%nat. split; [lia | done].
    - exists 0%nat. split; [lia | done].
    - exists 2%nat. split; [lia | done].
    - exists 1%nat. split; [lia | done]. }
  split; [exact Hk|]. split.
  - intros Ha. by rewrite (Hc Ha).
  - intros Hg. destruct Hk as (k & _ & ->). intros n. apply Hg.
Qed.

Lemma X18_step_draws_witness :
  (step phone eastMath (World_new phone) carrier 1 halfRng).2
  = (if blockedAt phone (World_new phone)
          (candidate phone eastMath (World_new phone) carrier 1 halfRng).1
          (candidate phone eastMath (World_new phone) carrier 1 halfRng).2
     then dropRng 1 halfRng else halfRng).
Proof.
  exact (proj1 (proj2 (X18_step_draws phone eastMath (World_new phone) carrier 1 halfRng))
           eq_refl).
Defined.

Lemma laterRng_refl g : laterRng g g.
Proof. by exists 0%nat. Qed.

Lemma laterRng_trans g1 g2 g3 : laterRng g1 g2 -> laterRng g2 g3 -> laterRng g1 g3.
Proof.
  intros [k1 H1] [k2 H2]. exists (k2 + k1)%nat. intros n.
  rewrite H1, H2. f_equal. lia.
Qed.

Lemma laterRng_valid g' g : laterRng g' g -> validRng g -> validRng g'.
Proof. intros [k Hk] Hg n. rewrite Hk. apply Hg. Qed.

Lemma step_laterRng vp M w a sm g : laterRng (step vp M w a sm g).2 g.
Proof.
  rewrite step_rng. cbv zeta.
  destruct (decideTurn_rng M w a (sense vp M w a) g) as [[-> | ->] _];
    destruct (blockedAt _ _ _ _).
  - by exists 1%nat.
  - by exists 0%nat.
  - by exists 2%nat.
  - by exists 1%nat.
Qed.

Lemma stepAnts_laterRng vp M w sm g : laterRng (stepAnts vp M w sm g).2 g.
Proof.
  unfold stepAnts.
  apply (fold_left_preserves (stepAnt vp M sm) (fun st => laterRng st.2 g));
    [|apply laterRng_refl].
  intros [w1 g1] i _ H1. simpl in H1.
  destruct (stepAnt_cases vp M sm w1 g1 i) as [[_ ->] | (a & _ & ->)]; [done|].
  simpl. eapply laterRng_trans; [apply step_laterRng | exact H1].
Qed.

Lemma tick_laterRng vp M w sm g : laterRng (tick vp M w sm g).2 g.
Proof.
  unfold tick. pose proof (stepAnts_laterRng vp M w sm g) as H.
  by destruct (stepAnts vp M w sm g) as [w1 g1].
Qed.

(** ** The main loop and the pointer *)

Lemma runTicks_spec vp M sm n : forall w g,
  reachable vp M w -> validRng g ->
  let r := runTicks vp M n w sm g in
  reachable vp M r.1 /\ validRng r.2
  /\ ticks r.1 = (ticks w + Z.of_nat n)%Z
  /\ (score w <= score r.1)%Z
  /\ foodLedger r.1 = foodLedger w
  /\ obstacles r.1 = obstacles w
  /\ length (ants r.1) = length (ants w).
Proof.
  induction n as [|n IH]; intros w g Hr Hg; cbv zeta.
  - simpl. split_and!; try done; lia.
  - cbn [runTicks].
    pose proof (reach_tick vp M w sm g Hr Hg) as Hr1.
    pose proof (laterRng_valid _ _ (tick_laterRng vp M w sm g) Hg) as Hg1.
    pose proof (tick_facts vp M w sm g) as Hf. cbv zeta in Hf.
    pose proof (score_tick_le vp M w sm g) as Hs.
    pose proof (foodLedger_tick vp M w sm g) as Hl.
    destruct (tick vp M w sm g) as [w1 g1]. cbn [fst snd] in *.
    destruct (IH w1 g1 Hr1 Hg1) as (R1 & R2 & R3 & R4 & R5 & R6 & R7).
    destruct Hf as (F1 & F2 & F3 & _).
    split_and!; try done; try congruence; lia.
Qed.

Lemma loop_runs vp M state now last w g n :
  reachable vp M w -> validRng g ->
  frameSteps state now last = Some n -> (0 <= n)%Z ->
  exists w' g',
    loop vp M state now last w g = Some (w', now, g')
    /\ (w', g') = runTicks vp M (Z.to_nat n) w (speedMultiplier state) g
    /\ ticks w' = (ticks w + n)%Z
    /\ reachable vp M w' /\ validRng g'
    /\ (score w <= score w')%Z /\ foodLedger w' = foodLedger w
    /\ obstacles w' = obstacles w /\ length (ants w') = length (ants w).
Proof.
  intros Hr Hg Hn H0. unfold loop. rewrite Hn.
  pose proof (runTicks_spec vp M (speedMultiplier state) (Z.to_nat n) w g Hr Hg) as H.
  cbv zeta in H.
  destruct (runTicks _ _ _ _ _ _) as [w1 g1]. cbn [fst snd] in *.
  destruct H as (R1 & R2 & R3 & R4 & R5 & R6 & R7).
  rewrite Z2Nat.id in R3 by done.
  exists w1, g1. split_and!; done.
Qed.

(** The frame clock on two time stamps: 33.3334 after 0 makes two ticks,
    though the exact quotient of that double by 16.6667 is just short of 2. *)
Example frame_two_periods :
  frameSteps {| running := true; speedMultiplier := 1; foodSize := 100 |}
    twoPeriods (IEEE.ofZ 0) = Some 2%Z
  /\ Qfloor (valueQ twoPeriods / (166667 # 10000)) = 1%Z.
Proof. vm_compute. split; reflexivity. Qed.

(** X19. One frame of the main loop, with the frame clock in binary64: dt
    is the double (now - last) / 16.6667.  Paused, the frame runs no tick and
    leaves world and generator as they were; so it does running when dt is
    not a number.  Running with a finite dt it runs exactly
    max(1, floor(dt)) ticks: one tick whenever dt is below 2, and otherwise
    the one whole number n with n <= dt < n + 1.  Running with dt minus
    infinity it runs one tick, and with dt plus infinity the frame never
    ends.  Whenever the frame ends, [last] becomes [now], the world is the
    one that many ticks make, it stays reachable, the score does not drop,
    and the food ledger, the obstacle mask and the number of ants are
    unchanged. *)
Theorem X19_loop_frame vp M state now last w g :
  reachable vp M w -> validRng g ->
  let dt := SFdiv 53 1024 (SFsub 53 1024 now last)
              (SFdiv 53 1024 (binary_normalize 53 1024 166667 0 false)
                             (binary_normalize 53 1024 10000 0 false)) in
  let ended := fun (n : Z) =>
    exists w' g',
      loop vp M state now last w g = Some (w', now, g')
      /\ (w', g') = runTicks vp M (Z.to_nat n) w (speedMultiplier state) g
      /\ ticks w' = (ticks w + n)%Z
      /\ reachable vp M w' /\ validRng g'
      /\ (score w <= score w')%Z /\ foodLedger w' = foodLedger w
      /\ obstacles w' = obstacles w /\ length (ants w') = length (ants w) in
  (running state = false -> loop vp M state now last w g = Some (w, now, g))
  /\ (running state = true -> dt = S754_nan ->
        loop vp M state now last w g = Some (w, now, g))
  /\ (running state = true -> dt = S754_infinity false ->
        loop vp M state now last w g = None)
  /\ (running state = true -> dt = S754_infinity true -> ended 1%Z)
  /\ (running state = true -> isFinite dt = true ->
        exists n : Z,
          ended n /\ n = Z.max 1 (Qfloor (valueQ dt)) /\ (1 <= n)%Z
          /\ (valueQ dt < 2 -> n = 1%Z)
          /\ (1 <= valueQ dt -> inject_Z n <= valueQ dt /\ valueQ dt < inject_Z n + 1)).
Proof.
  intros Hr Hg. cbv zeta.
  change (SFdiv 53 1024 (SFsub 53 1024 now last)
            (SFdiv 53 1024 (binary_normalize 53 1024 166667 0 false)
                           (binary_normalize 53 1024 10000 0 false)))
    with (frameDt now last).
  split_and!.
  - intros Hp. unfold loop, frameSteps. by rewrite Hp.
  - intros Hp Hd. unfold loop, frameSteps. by rewrite Hp, Hd.
  - intros Hp Hd. unfold loop, frameSteps. by rewrite Hp, Hd.
  - intros Hp Hd. apply loop_runs; [done|done| |lia].
    unfold frameSteps. by rewrite Hp, Hd.
  - intros Hp Hd. exists (Z.max 1 (Qfloor (valueQ (frameDt now last)))).
    pose proof (Qfloor_le (valueQ (frameDt now last))) as Hlo.
    pose proof (Qlt_floor (valueQ (frameDt now last))) as Hhi.
    rewrite inject_Z_plus in Hhi. change (inject_Z 1) with 1 in Hhi.
    split_and!.
    + apply loop_runs; [done|done| |lia].
      unfold frameSteps. rewrite Hp. cbv zeta.
      by destruct (frameDt now last) as [| [|] | |].
    + reflexivity.
    + lia.
    + intros H2.
      assert (Qfloor (valueQ (frameDt now last)) < 2)%Z; [|lia].
      rewrite Zlt_Qlt. change (inject_Z 2) with 2. lra.
    + intros H1.
      assert (1 <= Qfloor (valueQ (frameDt now last)))%Z.
      { change 1%Z with (Qfloor 1). by apply Qfloor_resp_le. }
      rewrite Z.max_r by lia. split; lra.
Qed.

Lemma X19_loop_frame_witness :
  exists w' g',
    loop phone eastMath {| running := true; speedMultiplier := 1; foodSize := 100 |}
      twoPeriods (IEEE.ofZ 0) tickedWorld halfRng = Some (w', twoPeriods, g')
    /\ ticks w' = (ticks tickedWorld + 2)%Z.
Proof.
  destruct (X19_loop_frame phone eastMath
              {| running := true; speedMultiplier := 1; foodSize := 100 |}
              twoPeriods (IEEE.ofZ 0) tickedWorld halfRng
              reachable_tickedWorld validRng_halfRng) as (_ & _ & _ & _ & H).
  destruct (H eq_refl eq_refl) as (n & (w' & g' & Hl & _ & Ht & _) & Hn & _).
  exists w', g'. split; [exact Hl|].
  rewrite Ht, Hn. reflexivity.
Defined.

Lemma clampZ_in_grid c size : (1 <= size)%Z -> (0 <= clampZ c 0 (size - 1) < size)%Z.
Proof. unfold clampZ. lia. Qed.

Lemma unscaled_cell (p off scale : Q) (size cw : Z) :
  0 < inject_Z cw -> scale == inject_Z cw ->
  0 <= p - off -> p - off < inject_Z (size * CELL_SIZE) ->
  clampZ (Qfloor ((p - off) * (inject_Z cw / scale) / inject_Z CELL_SIZE)) 0 (size - 1)
  = Qfloor ((p - off) / inject_Z CELL_SIZE).
Proof.
  intros Hcw Hs H0 H1.
  assert (E : (p - off) * (inject_Z cw / scale) / inject_Z CELL_SIZE
              == (p - off) / inject_Z CELL_SIZE).
  { rewrite Hs. field. split; [discriminate | lra]. }
  rewrite E. apply clampZ_id.
  set (q := (p - off) / inject_Z CELL_SIZE).
  assert (Hq0 : 0 <= q) by (apply Qle_shift_div_l; [reflexivity | lra]).
  assert (Hq1 : q < inject_Z size).
  { apply Qlt_shift_div_r; [reflexivity|]. by rewrite <- inject_Z_mult. }
  split.
  - apply Qfloor_resp_le in Hq0. exact Hq0.
  - pose proof (Qfloor_le q) as Hf.
    assert (Hlt : inject_Z (Qfloor q) < inject_Z size) by lra.
    by rewrite <- Zlt_Qlt in Hlt.
Qed.

(** X20. Pointer editing.  Whatever the pointer position and the layout of
    the canvas, [getMouseCell] returns a cell of the grid; on a canvas shown
    unscaled, a pointer over the grid yields exactly the cell under it,
    floor(offset / CELL_SIZE) on each axis.  The action taken with the active
    tool keeps the world reachable and never touches the ants, the scent
    field, the score or the tick counter: the food tool adds foodSize units
    to the store and leaves the obstacle mask, the wall and erase tools leave
    the food store. *)
Theorem X20_pointer_action vp M tool state w cw ch rect evt :
  reachable vp M w -> 0 < rect_width rect -> 0 < rect_height rect ->
  let c := getMouseCell w cw ch rect evt in
  let w' := act vp tool state w cw ch rect evt in
  ((0 <= c.1 < gridWidth w)%Z /\ (0 <= c.2 < gridHeight w)%Z)
  /\ (0 < inject_Z cw -> rect_width rect == inject_Z cw ->
      0 <= clientX evt - rect_left rect ->
      clientX evt - rect_left rect < inject_Z (gridWidth w * CELL_SIZE) ->
      c.1 = Qfloor ((clientX evt - rect_left rect) / inject_Z CELL_SIZE))
  /\ (0 < inject_Z ch -> rect_height rect == inject_Z ch ->
      0 <= clientY evt - rect_top rect ->
      clientY evt - rect_top rect < inject_Z (gridHeight w * CELL_SIZE) ->
      c.2 = Qfloor ((clientY evt - rect_top rect) / inject_Z CELL_SIZE))
  /\ reachable vp M w'
  /\ ants w' = ants w /\ toFood w' = toFood w /\ score w' = score w /\ ticks w' = ticks w
  /\ match tool with
     | FOOD => obstacles w' = obstacles w
               /\ pilesTotal (foodPiles w') = (pilesTotal (foodPiles w) + foodSize state)%Z
     | WALL | ERASE => foodPiles w' = foodPiles w
     end.
Proof.
  intros Hr Hrw Hrh. cbv zeta.
  destruct (reachable_shaped vp M w Hr) as [Hgw Hgh _ _ _ _].
  pose proof (GRID_WIDTH_range vp). pose proof (GRID_HEIGHT_range vp).
  unfold act, getMouseCell. cbn [fst snd].
  set (cx := clampZ _ 0 (gridWidth w - 1)). set (cy := clampZ _ 0 (gridHeight w - 1)).
  split; [split; apply clampZ_in_grid; lia|].
  split; [intros; by apply unscaled_cell|].
  split; [intros; by apply unscaled_cell|].
  destruct tool.
  - split; [by apply reach_addFood|].
    assert (Hl : foodLedger (addFood w cx cy (foodSize state))
                 = (foodLedger w + foodSize state)%Z).
    { unfold addFood, foodLedger.
      destruct (list_find _ _) as [[i f]|] eqn:E; simpl.
      - apply list_find_Some in E as (Hi & _ & _).
        rewrite (pilesTotal_alter _ (foodSize state));
          [lia | done | by eapply lookup_lt_Some].
      - rewrite pilesTotal_app. simpl. lia. }
    unfold foodLedger in Hl. unfold addFood in *.
    destruct (list_find _ _) as [[i f]|]; simpl in *; split_and!; try done; lia.
  - split; [by apply reach_setWall|].
    by destruct (setWall_frame vp w cx cy true 2) as (o & -> & _).
  - split; [by apply reach_setWall|].
    by destruct (setWall_frame vp w cx cy false 2) as (o & -> & _).
Qed.

Lemma X20_pointer_action_witness :
  getMouseCell (World_new phone) 240 240 pageRect pointerAt = (16, 8)%Z
  /\ ants (act phone WALL initialUi (World_new phone) 240 240 pageRect pointerAt)
     = ants (World_new phone).
Proof.
  assert (Hw : 0 < rect_width pageRect) by reflexivity.
  assert (Hh : 0 < rect_height pageRect) by reflexivity.
  destruct (X20_pointer_action phone eastMath WALL initialUi (World_new phone) 240 240
              pageRect pointerAt (reach_new phone eastMath) Hw Hh)
    as (_ & _ & _ & _ & Ha & _).
  split; [reflexivity | exact Ha].
Defined.

(** ** Rendering *)

Lemma Qfloor_between (q : Q) (lo hi : Z) :
  inject_Z lo <= q -> q < inject_Z (hi + 1) -> (lo <= Qfloor q <= hi)%Z.
Proof.
  intros H0 H1. split.
  - apply Qfloor_resp_le in H0. by rewrite Qfloor_Z in H0.
  - pose proof (Qfloor_le q) as Hf.
    assert (Hlt : inject_Z (Qfloor q) < inject_Z (hi + 1)) by lra.
    rewrite <- Zlt_Qlt in Hlt. lia.
Qed.

(** X21. The colour [drawWorld] gives a cell is a valid RGBA value whatever
    the field strength: red is 0, green lies in [0, 180], blue in [0, 44]
    and alpha in [0, 140].  A cell at strength 0 or below, or any cell when
    the trail display is off, is fully transparent black, and a cell at
    PHEROMONE_MAX or above gets the top colour (0, 180, 44, 140). *)
Theorem X21_cellColor_range showFood v :
  let '(r, g, b, a) := cellColor showFood v in
  r = 0%Z /\ (0 <= g <= 180)%Z /\ (0 <= b <= 44)%Z /\ (0 <= a <= 140)%Z
  /\ (showFood = false \/ v <= 0 -> (g, b, a) = (0, 0, 0)%Z)
  /\ (showFood = true /\ PHEROMONE_MAX <= v -> (g, b, a) = (180, 44, 140)%Z).
Proof.
  unfold cellColor.
  set (alpha := if showFood then clamp (v / PHEROMONE_MAX) 0 1 else 0).
  assert (Hv : v / PHEROMONE_MAX == v * (1 # 5)) by (unfold PHEROMONE_MAX; field).
  assert (Ha : 0 <= alpha /\ alpha <= 1).
  { unfold alpha. destruct showFood; [|lra]. apply clamp_range. lra. }
  assert (Hlow : showFood = false \/ v <= 0 -> alpha == 0).
  { unfold alpha, clamp. intros [-> | Hle]; [reflexivity|].
    destruct showFood; [|reflexivity].
    destruct (Q.min_spec 1 (v / PHEROMONE_MAX)) as [[? E1] | [? E1]];
      destruct (Q.max_spec 0 (Qmin 1 (v / PHEROMONE_MAX))) as [[? E2] | [? E2]]; lra. }
  assert (Hhigh : showFood = true /\ PHEROMONE_MAX <= v -> alpha == 1).
  { unfold alpha, clamp, PHEROMONE_MAX in *. intros [-> Hge].
    destruct (Q.min_spec 1 (v / 5)) as [[? E1] | [? E1]];
      destruct (Q.max_spec 0 (Qmin 1 (v / 5))) as [[? E2] | [? E2]]; lra. }
  destruct Ha as [Ha0 Ha1].
  assert (Hm : Qmax (alpha * (55 # 100)) (0 * (55 # 100)) == alpha * (55 # 100)).
  { destruct (Q.max_spec (alpha * (55 # 100)) (0 * (55 # 100))) as [[? E] | [? E]]; lra. }
  rewrite Hm.
  split; [reflexivity|].
  split; [apply Qfloor_between; change (inject_Z 0) with 0;
          change (inject_Z (180 + 1)) with 181; lra|].
  split; [apply Qfloor_between; change (inject_Z 0) with 0;
          change (inject_Z (44 + 1)) with 45; lra|].
  split; [apply Qfloor_between; change (inject_Z 0) with 0;
          change (inject_Z (140 + 1)) with 141; lra|].
  split.
  - intros H. apply Hlow in H.
    assert (E1 : 180 * alpha == 0) by lra.
    assert (E2 : 220 * (alpha * (2 # 10) + 0 * (2 # 10)) == 0) by lra.
    assert (E3 : 255 * (alpha * (55 # 100)) == 0) by lra.
    by rewrite E1, E2, E3.
  - intros H. apply Hhigh in H.
    assert (E1 : 180 * alpha == 180) by lra.
    assert (E2 : 220 * (alpha * (2 # 10) + 0 * (2 # 10)) == 44) by lra.
    assert (E3 : 255 * (alpha * (55 # 100)) == 14025 # 100) by lra.
    by rewrite E1, E2, E3.
Qed.

Lemma X21_cellColor_range_witness :
  cellColor true PHEROMONE_MAX = (0, 180, 44, 140)%Z /\ cellColor false 3 = (0, 0, 0, 0)%Z.
Proof.
  pose proof (X21_cellColor_range true PHEROMONE_MAX) as H1.
  pose proof (X21_cellColor_range false 3) as H2.
  destruct (cellColor true PHEROMONE_MAX) as [[[r g] b] a].
  destruct H1 as (-> & _ & _ & _ & _ & H1).
  destruct (cellColor false 3) as [[[r' g'] b'] a'].
  destruct H2 as (-> & _ & _ & _ & H2 & _).
  assert (E1 : (g, b, a) = (180, 44, 140)%Z) by (apply H1; split; [done | apply Qle_refl]).
  assert (E2 : (g', b', a') = (0, 0, 0)%Z) by (apply H2; by left).
  injection E1 as -> -> ->. injection E2 as -> -> ->. done.
Defined.

(** ** More on steps and ticks *)

(** X22. Ants do not walk into walls or off the grid: when the step of an
    ant moves it (no reflection), the cell it arrives on is a cell of the
    grid and is not an obstacle; when it does not move, only its heading
    changed.  A walled-in ant therefore stays where it is. *)
Theorem X22_never_enters_walls vp M w a sm g :
  let a' := (step vp M w a sm g).1.2 in
  if bounces vp M w a sm g
  then ant_x a' = ant_x a /\ ant_y a' = ant_y a
  else (ant_x a', ant_y a') = candidate vp M w a sm g
       /\ (0 <= cellX a' < gridWidth w)%Z /\ (0 <= cellY a' < gridHeight w)%Z
       /\ isWallAt (obstacles w) (indexOf vp (cellX a') (cellY a')) = false.
Proof.
  cbv zeta. destruct (step_state vp M w a sm g) as (_ & _ & Hx & Hy).
  unfold cellX, cellY. rewrite Hx, Hy, movedAnt_spec. cbn [ant_x ant_y].
  unfold bounces. destruct (candidate vp M w a sm g) as [nx ny]. cbn [fst snd].
  destruct (_ || _ || _) eqn:Hb; [done|].
  apply orb_false_elim in Hb as [Hb Hwall]. apply orb_false_elim in Hb as [Hox Hoy].
  apply outside_false in Hox, Hoy. unfold blockedAt in Hwall.
  rewrite !clampZ_id in Hwall by done. done.
Qed.

Lemma World_eq (w1 w2 : World) :
  gridWidth w1 = gridWidth w2 -> gridHeight w1 = gridHeight w2 ->
  toFood w1 = toFood w2 -> obstacles w1 = obstacles w2 ->
  foodPiles w1 = foodPiles w2 -> ants w1 = ants w2 -> nest w1 = nest w2 ->
  score w1 = score w2 -> ticks w1 = ticks w2 -> tempToFood w1 = tempToFood w2 ->
  flags w1 = flags w2 -> w1 = w2.
Proof. destruct w1, w2. simpl. by intros -> -> -> -> -> -> -> -> -> -> ->. Qed.

Lemma spawnAnts_same_nest n : forall w1 w2 g,
  nest w1 = nest w2 ->
  exists l, ants (spawnAnts n w1 g).1 = ants w1 ++ l
            /\ ants (spawnAnts n w2 g).1 = ants w2 ++ l
            /\ (spawnAnts n w1 g).2 = (spawnAnts n w2 g).2.
Proof.
  induction n as [|n IH]; intros w1 w2 g Hn.
  - exists []. simpl. by rewrite !app_nil_r.
  - cbn [spawnAnts]. unfold Math_random. cbn [fst snd]. rewrite Hn.
    destruct (spawnAtNest _ _ _) as [a g3].
    destruct (IH (set_ants w1 (ants w1 ++ [a])) (set_ants w2 (ants w2 ++ [a])) g3)
      as (l & E1 & E2 & E3); [by destruct w1, w2|].
    exists (a :: l). rewrite E1, E2, E3. simpl. by rewrite <- !app_assoc.
Qed.

Lemma reachable_hiddenTrailWorld : reachable phone eastMath hiddenTrailWorld.
Proof. apply reach_showFood. apply reachable_trailWorld. Qed.

(** X23. Reset forgets history: resetting any reachable world gives, for the
    same ant count and the same random draws, the world a reset of a freshly
    constructed world gives, up to the two things reset does not touch: the
    contents of the scratch buffer and the display flags (a trail display
    switched off stays off across a reset). *)
Theorem X23_reset_forgets vp M w antCount g fl :
  reachable vp M w ->
  set_flags (set_tempToFood (reset w antCount g).1 []) fl
  = set_flags (set_tempToFood (reset (World_new vp) antCount g).1 []) fl
  /\ (reset w antCount g).2 = (reset (World_new vp) antCount g).2
  /\ flags (reset w antCount g).1 = flags w
  /\ tempToFood (reset w antCount g).1 = tempToFood w.
Proof.
  intros Hr. destruct (reachable_shaped vp M w Hr) as [Hgw Hgh Hn Hf Ht Ho].
  unfold reset.
  set (b1 := set_ticks _ _). set (b2 := set_ticks _ _).
  destruct (spawnAnts_same_nest (Z.to_nat antCount) b1 b2 g) as (l & E1 & E2 & E3);
    [unfold b1, b2; simpl; congruence|].
  destruct (spawnAnts_frame (Z.to_nat antCount) b1 g) as [l1 F1].
  destruct (spawnAnts_frame (Z.to_nat antCount) b2 g) as [l2 F2].
  split; [|split; [exact E3 | by rewrite F1]].
  rewrite F1 in E1. rewrite F2 in E2. rewrite F1, F2.
  unfold b1, b2 in *. simpl in E1, E2. rewrite E1, E2.
  destruct (shaped_World_new vp) as [Hgw0 Hgh0 Hn0 Hf0 _ Ho0].
  apply World_eq.
  - change (gridWidth w = gridWidth (World_new vp)). congruence.
  - change (gridHeight w = gridHeight (World_new vp)). congruence.
  - change (replicate (length (toFood w)) 0 = replicate (length (toFood (World_new vp))) 0).
    congruence.
  - change (replicate (length (obstacles w)) 0%Z
            = replicate (length (obstacles (World_new vp))) 0%Z).
    congruence.
  - reflexivity.
  - reflexivity.
  - change (nest w = nest (World_new vp)). congruence.
  - reflexivity.
  - reflexivity.
  - reflexivity.
  - reflexivity.
Qed.

Lemma X23_reset_forgets_witness :
  set_flags (set_tempToFood (reset hiddenTrailWorld 2 halfRng).1 []) (flags (World_new phone))
  = set_flags (set_tempToFood (reset (World_new phone) 2 halfRng).1 [])
      (flags (World_new phone))
  /\ showFoodPheromone (flags (reset hiddenTrailWorld 2 halfRng).1) = false.
Proof.
  destruct (X23_reset_forgets phone eastMath hiddenTrailWorld 2 halfRng
              (flags (World_new phone)) reachable_hiddenTrailWorld) as (H1 & _ & H2 & _).
  split; [exact H1 | by rewrite H2].
Defined.

Lemma fold_left_seq_inv {A} (f : A -> nat -> A) (Q : nat -> A -> Prop) (len : nat) :
  forall start a,
    Q start a ->
    (forall i a, (start <= i < start + len)%nat -> Q i a -> Q (S i) (f a i)) ->
    Q (start + len)%nat (fold_left f (seq start len) a).
Proof.
  induction len as [|len IH]; intros start a Ha Hf; simpl.
  - by rewrite Nat.add_0_r.
  - rewrite <- Nat.add_succ_comm. apply IH.
    + apply Hf; [lia | done].
    + intros i a' Hi. apply Hf. lia.
Qed.

Lemma stepAnts_no_carrier vp M w sm g :
  Forall (fun a => hasFood a = false) (ants w) ->
  toFood (stepAnts vp M w sm g).1 = toFood w.
Proof.
  intros Hall. unfold stepAnts.
  set (Q := fun (i : nat) (st : World * Rng) =>
              toFood st.1 = toFood w
              /\ forall j, (i <= j)%nat -> ants st.1 !! j = ants w !! j).
  assert (HQ : Q (0 + length (ants w))%nat
                 (fold_left (stepAnt vp M sm) (seq 0 (length (ants w))) (w, g))).
  { apply (fold_left_seq_inv (stepAnt vp M sm) Q); [by split|].
    intros i [w1 g1] Hi [Hf Hants]. simpl in Hf, Hants.
    destruct (stepAnt_cases vp M sm w1 g1 i) as [[_ ->] | (a & Ha & ->)].
    - split; [done|]. intros j Hj. apply Hants. lia.
    - assert (Hsearch : hasFood a = false).
      { rewrite Hants in Ha by lia. eapply Forall_lookup_1 in Hall; eauto. }
      destruct (step_world vp M w1 a sm g1) as (Ht & _).
      destruct (step_frame vp M w1 a sm g1) as (f & p & s & E & _).
      rewrite Hsearch in Ht. split; simpl.
      + rewrite E in Ht. simpl in Ht. rewrite E. simpl. congruence.
      + intros j Hj. rewrite E. simpl.
        rewrite list_lookup_insert_ne by lia. apply Hants. lia. }
  by destruct HQ.
Qed.

(** X24. A tick without carriers only evaporates: when no ant of a
    reachable world carries food, the ants' steps of the next tick leave the
    scent field as it was (an ant that picks food up deposits from its next
    step on only), so the field after the whole tick is the field one advance
    makes of the old one; no cell of the grid is stronger after the tick than
    before it, and a cell that held scent still holds some. *)
Theorem X24_tick_without_carriers vp M w sm g x y :
  reachable vp M w -> Forall (fun a => hasFood a = false) (ants w) ->
  (0 <= x < gridWidth w)%Z -> (0 <= y < gridHeight w)%Z ->
  toFood (stepAnts vp M w sm g).1 = toFood w
  /\ toFood (tick vp M w sm g).1 = toFood (diffuseAndEvaporate vp w)
  /\ scentAt vp (tick vp M w sm g).1 x y <= scentAt vp w x y
  /\ (0 < scentAt vp w x y -> 0 < scentAt vp (tick vp M w sm g).1 x y).
Proof.
  intros Hr Hall Hx Hy.
  pose proof (stepAnts_no_carrier vp M w sm g Hall) as Hf.
  split; [exact Hf|].
  pose proof (reachable_shaped vp M w Hr) as Hs.
  pose proof (scentAt_nonneg vp M w x y Hr) as H0.
  pose proof (scentAt_diffuseAndEvaporate vp w x y Hs Hx Hy) as Hd.
  pose proof (diffuseCell_evaporates vp (gridWidth w) (gridHeight w) (toFood w) x y H0) as He.
  assert (Ht : toFood (tick vp M w sm g).1 = toFood (diffuseAndEvaporate vp w)).
  { destruct (stepAnts_frame vp M w sm g) as (f & p & a & s & E).
    unfold tick. destruct (stepAnts vp M w sm g) as [w1 g1]. cbn [fst snd] in *.
    subst w1. simpl in Hf. subst f. reflexivity. }
  split; [exact Ht|].
  unfold scentAt in *. rewrite Ht, Hd, He.
  set (q := readF (toFood w) (indexOf vp x y)) in *.
  unfold EVAPORATION. split; [lra | intros Hq; lra].
Qed.

Lemma X24_tick_without_carriers_witness :
  toFood (tick phone eastMath trailWorld 1 halfRng).1
  = toFood (diffuseAndEvaporate phone trailWorld)
  /\ 0 < scentAt phone (tick phone eastMath trailWorld 1 halfRng).1 20 20
  /\ scentAt phone (tick phone eastMath trailWorld 1 halfRng).1 20 20
     <= scentAt phone trailWorld 20 20.
Proof.
  assert (Hall : Forall (fun a => hasFood a = false) (ants trailWorld))
    by (vm_compute; repeat constructor).
  assert (Hx : (0 <= 20 < gridWidth trailWorld)%Z)
    by (vm_compute; split; [discriminate | reflexivity]).
  assert (Hy : (0 <= 20 < gridHeight trailWorld)%Z)
    by (vm_compute; split; [discriminate | reflexivity]).
  assert (Hpos : 0 < scentAt phone trailWorld 20 20) by (vm_compute; reflexivity).
  destruct (X24_tick_without_carriers phone eastMath trailWorld 1 halfRng 20 20
              reachable_trailWorld Hall Hx Hy) as (_ & H1 & H2 & H3).
  exact (conj H1 (conj (H3 Hpos) H2)).
Defined.
